(** * rustic: Option, Result, panic, format and write

    A shallow embedding of the TypeScript sources of the repository
    (Option.ts, Result.ts, panic.ts, ops.ts) together with a model of the
    printf-style engine [sprintf] that ops.ts and panic.ts import from
    [./_/printf.ts] and that is described by the specification only. *)

From Stdlib Require Import ZArith String Ascii List Bool Arith Lia.
From Stdlib Require Import Floats.PrimFloat Floats.SpecFloat Floats.FloatOps.
Import ListNotations.

Set Warnings "-register-all".
Local Open Scope list_scope.
Local Open Scope string_scope.

(** ** JavaScript values *)

(** The private fields of [class Option<T>] (Option.ts, [#has], [#value]). *)
Record OptionFields (T : Type) : Type := mkOption
  { opt_has : bool;
    opt_value : T }.

(** The private fields of [class Result<T, E>] (Result.ts, [#value],
    [#error], [#isError]). *)
Record ResultFields (T : Type) : Type := mkResult
  { res_value : T;
    res_error : T;
    res_isError : bool }.

Arguments mkOption {T} _ _.
Arguments opt_has {T} _.
Arguments opt_value {T} _.
Arguments mkResult {T} _ _ _.
Arguments res_value {T} _.
Arguments res_error {T} _.
Arguments res_isError {T} _.

(** The run-time values the sources pass around.  Every TypeScript type
    parameter is erased at run time, so payloads, errors, callbacks' results
    and format arguments are all of this one type.  A number is an IEEE
    binary64, as in JavaScript. *)
Inductive value : Type :=
| VUndefined
| VNull
| VBool (b : bool)
| VNum (x : float)
| VStr (s : string)
| VArr (xs : list value)
| VError (message : string)          (* [new Error(message)] *)
| VFunc (name : string)              (* a function object, e.g. a method *)
| VObject (handle : nat)             (* any other host object *)
| VOption (o : OptionFields value)   (* an instance of [Option] *)
| VResult (r : ResultFields value).  (* an instance of [Result] *)

(** [typeof v]. *)
Definition typeof (v : value) : string :=
  match v with
  | VUndefined => "undefined"
  | VBool _ => "boolean"
  | VNum _ => "number"
  | VStr _ => "string"
  | VFunc _ => "function"
  | VNull | VArr _ | VError _ | VObject _ | VOption _ | VResult _ => "object"
  end.

(** JavaScript truthiness, as used by [if (...)] and by [!]. *)
Definition truthy (v : value) : bool :=
  match v with
  | VUndefined | VNull => false
  | VBool b => b
  | VNum x => negb (PrimFloat.is_zero x || PrimFloat.is_nan x)
  | VStr s => negb (String.length s =? 0)%nat
  | _ => true
  end.

(** The integral part of a finite number (truncation toward zero); [None]
    for NaN and the infinities. *)
Definition toInteger (x : float) : option Z :=
  match Prim2SF x with
  | S754_zero _ => Some 0%Z
  | S754_finite s m e =>
      let mag := if (0 <=? e)%Z then (Z.pos m * 2 ^ e)%Z
                 else (Z.pos m / 2 ^ (- e))%Z in
      Some (if s then (- mag)%Z else mag)
  | S754_infinity _ | S754_nan => None
  end.

(** The number with the integral value [z] (exact below 2^53). *)
Definition number_of_Z (z : Z) : float :=
  SF2Prim (match z with
           | Z0 => S754_zero false
           | Zpos m => S754_finite false m 0
           | Zneg m => S754_finite true m 0
           end).

(** ** General string helpers *)

Fixpoint repeat_char (c : ascii) (n : nat) : string :=
  match n with
  | O => EmptyString
  | S k => String c (repeat_char c k)
  end.

Fixpoint concat_all (pieces : list string) : string :=
  match pieces with
  | [] => EmptyString
  | p :: rest => p ++ concat_all rest
  end.

Fixpoint take (n : nat) (s : string) : string :=
  match n, s with
  | S k, String c rest => String c (take k rest)
  | _, _ => EmptyString
  end.

(** [contains sub s]: the token [sub] occurs inside [s]. *)
Definition contains (sub s : string) : Prop :=
  exists before after, s = before ++ sub ++ after.

(** ** The format-string engine ([./_/printf.ts]) *)

Module Printf.

(** Modelled from the spec: the whole of this module stands for the missing
    [./_/printf.ts].  Its components follow sections 3 and 4 of the
    specification, in the order Scanner, Directive Parser, Argument Cursor,
    Verb Formatter, Padder, Assembler; the helpers between them only spell
    out what those sections say. *)

(** Modelled from the spec: [./_/printf.ts] is not among the sources, so the
    flag set of a directive follows section 3 (plus, minus, hash, space,
    zero, spread). *)
Record Flags : Type := mkFlags
  { plus : bool;
    minus : bool;
    hash : bool;
    space : bool;
    zero : bool;
    spread : bool }.

Definition no_flags : Flags := mkFlags false false false false false false.

(** Modelled from the spec: the [WidthSpec] / [PrecisionSpec] of section 3,
    one of absent, literal(n), fromArg, fromArgAt(n); [./_/printf.ts] is
    missing. *)
Inductive ArgSpec : Type :=
| Absent
| Literally (n : nat)
| FromArg
| FromArgAt (n : nat).

Definition WidthSpec : Type := ArgSpec.
Definition PrecisionSpec : Type := ArgSpec.

(** Modelled from the spec: the [Directive] record of section 3
    ([./_/printf.ts] is missing). *)
Record Directive : Type := mkDirective
  { verb : ascii;
    flags : Flags;
    width : WidthSpec;
    precision : PrecisionSpec;
    explicitIndex : option nat }.

(** Modelled from the spec: the parts of the missing [./_/printf.ts] that the
    specification leaves to the host or does not pin down: stringification,
    inspection and JSON dumps, decimal rendering of floating-point numbers,
    code points, the display capability, the separator of the [<] modifier,
    and the text of the error tokens other than BAD VERB and MISSING. *)
Record Runtime : Type := mkRuntime
  { toString : value -> string;
    inspect : bool -> option nat -> value -> string;
    stringify : bool -> value -> string;
    floatText : ascii -> bool -> option nat -> float -> string;
    fromCodePoint : Z -> string;
    display : value -> option string;
    joinSpread : list string -> string;
    malformedToken : string -> string;
    coercionToken : ascii -> value -> string;
    noDisplayToken : ascii -> string }.

(** *** Scanner (section 4.1) *)

(** Modelled from the spec: the segments the Scanner of the missing
    [./_/printf.ts] produces: literal runs, the escaped percent, directive
    spans (the raw text after [%] up to and including the verb) and a
    directive cut short by the end of the template. *)
Inductive segment : Type :=
| Literal (text : string)
| Percent
| Span (raw : string)
| Dangling (raw : string).

Definition is_digit (c : ascii) : bool :=
  let n := nat_of_ascii c in (48 <=? n)%nat && (n <=? 57)%nat.

(** The characters of the directive grammar that are not verbs: index
    brackets, flags, digits, [*] and [.]. *)
Definition is_syntax (c : ascii) : bool :=
  is_digit c
  || (c =? "[")%char || (c =? "]")%char || (c =? "*")%char || (c =? ".")%char
  || (c =? "+")%char || (c =? "-")%char || (c =? "#")%char || (c =? " ")%char
  || (c =? "<")%char.

Definition push_literal (c : ascii) (segs : list segment) : list segment :=
  match segs with
  | Literal run :: rest => Literal (String c run) :: rest
  | _ => Literal (String c EmptyString) :: segs
  end.

Definition is_empty (s : string) : bool :=
  match s with
  | EmptyString => true
  | String _ _ => false
  end.

(** Modelled from the spec: the Scanner of the missing [./_/printf.ts]
    (section 4.1).  [open] is [Some raw] while a directive is open, [raw]
    being the text read since its [%]. *)
Fixpoint scan_from (open : option string) (tpl : string) : list segment :=
  match tpl, open with
  | EmptyString, None => []
  | EmptyString, Some raw => [Dangling raw]
  | String c rest, None =>
      if (c =? "%")%char then scan_from (Some EmptyString) rest
      else push_literal c (scan_from None rest)
  | String c rest, Some raw =>
      if is_empty raw && (c =? "%")%char then Percent :: scan_from None rest
      else if is_syntax c then scan_from (Some (raw ++ String c EmptyString)) rest
      else Span (raw ++ String c EmptyString) :: scan_from None rest
  end.

(** Modelled from the spec: the entry point of the Scanner of the missing
    [./_/printf.ts]. *)
Definition scan (tpl : string) : list segment := scan_from None tpl.

(** *** Directive Parser (section 4.2) *)

(** Modelled from the spec: the closed enumeration of verb variants that
    section 9 asks for, one per row of the table of section 4.4 (the missing
    [./_/printf.ts] holds the dispatch table).  [d], absent from the table,
    is the decimal member of the integer family that the examples use. *)
Inductive Verb : Type :=
| VerbBoolean
| VerbInteger (base : N) (upper : bool)
| VerbChar
| VerbFloat
| VerbString
| VerbType
| VerbValue
| VerbJson (expanded : bool)
| VerbInspect (expanded : bool)
| VerbDisplay
| VerbPercent.

(** Modelled from the spec: the dispatch table of the missing
    [./_/printf.ts], from verb character to verb variant (section 4.4). *)
Definition verb_of_char (c : ascii) : option Verb :=
  if (c =? "t")%char then Some VerbBoolean
  else if (c =? "b")%char then Some (VerbInteger 2 false)
  else if (c =? "o")%char then Some (VerbInteger 8 false)
  else if (c =? "d")%char then Some (VerbInteger 10 false)
  else if (c =? "x")%char then Some (VerbInteger 16 false)
  else if (c =? "X")%char then Some (VerbInteger 16 true)
  else if (c =? "c")%char then Some VerbChar
  else if (c =? "e")%char || (c =? "E")%char || (c =? "f")%char
          || (c =? "F")%char || (c =? "g")%char || (c =? "G")%char
       then Some VerbFloat
  else if (c =? "s")%char then Some VerbString
  else if (c =? "T")%char then Some VerbType
  else if (c =? "v")%char then Some VerbValue
  else if (c =? "j")%char then Some (VerbJson false)
  else if (c =? "J")%char then Some (VerbJson true)
  else if (c =? "i")%char then Some (VerbInspect false)
  else if (c =? "I")%char then Some (VerbInspect true)
  else if (c =? "?")%char then Some VerbDisplay
  else if (c =? "%")%char then Some VerbPercent
  else None.

(** Modelled from the spec: what the Directive Parser of the missing
    [./_/printf.ts] returns: a directive, or one of the two recoverable
    parse failures (unknown verb, malformed syntax). *)
Inductive parse_result : Type :=
| Parsed (d : Directive)
| BadVerb (c : ascii)
| Malformed.

(** The longest prefix of decimal digits, and what follows it. *)
Fixpoint span_digits (s : string) : string * string :=
  match s with
  | EmptyString => (EmptyString, EmptyString)
  | String c rest =>
      if is_digit c
      then let (ds, r) := span_digits rest in (String c ds, r)
      else (EmptyString, s)
  end.

Fixpoint number_from (acc : nat) (digits : string) : nat :=
  match digits with
  | EmptyString => acc
  | String c rest => number_from (10 * acc + (nat_of_ascii c - 48)) rest
  end.

Definition number_of (digits : string) : nat := number_from 0 digits.

(** ['[' INDEX ']'], optional: [Some (None, s)] when [s] does not open a
    bracket, [None] when the bracket holds no index or is not closed. *)
Definition parse_index (s : string) : option (option nat * string) :=
  match s with
  | String c rest =>
      if (c =? "[")%char then
        match span_digits rest with
        | (EmptyString, _) => None
        | (ds, String c' r) =>
            if (c' =? "]")%char then Some (Some (number_of ds), r) else None
        | (_, EmptyString) => None
        end
      else Some (None, s)
  | EmptyString => Some (None, s)
  end.

Definition set_flag (c : ascii) (fl : Flags) : option Flags :=
  if (c =? "+")%char then Some (mkFlags true (minus fl) (hash fl) (space fl) (zero fl) (spread fl))
  else if (c =? "-")%char then Some (mkFlags (plus fl) true (hash fl) (space fl) (zero fl) (spread fl))
  else if (c =? "#")%char then Some (mkFlags (plus fl) (minus fl) true (space fl) (zero fl) (spread fl))
  else if (c =? " ")%char then Some (mkFlags (plus fl) (minus fl) (hash fl) true (zero fl) (spread fl))
  else if (c =? "0")%char then Some (mkFlags (plus fl) (minus fl) (hash fl) (space fl) true (spread fl))
  else if (c =? "<")%char then Some (mkFlags (plus fl) (minus fl) (hash fl) (space fl) (zero fl) true)
  else None.

(** [FLAGS*]. *)
Fixpoint parse_flags (fl : Flags) (s : string) : Flags * string :=
  match s with
  | EmptyString => (fl, s)
  | String c rest =>
      match set_flag c fl with
      | Some fl' => parse_flags fl' rest
      | None => (fl, s)
      end
  end.

(** [DIGITS | '*' | '*[' INDEX ']'], or nothing ([Absent]); [None] when a
    bracket after [*] is malformed. *)
Definition parse_arg_spec (s : string) : option (ArgSpec * string) :=
  match s with
  | EmptyString => Some (Absent, s)
  | String c rest =>
      if (c =? "*")%char then
        match parse_index rest with
        | Some (Some n, r) => Some (FromArgAt n, r)
        | Some (None, r) => Some (FromArg, r)
        | None => None
        end
      else if is_digit c then
        let (ds, r) := span_digits s in Some (Literally (number_of ds), r)
      else Some (Absent, s)
  end.

(** [['.' PRECISION]]; an empty precision after the dot means 0. *)
Definition parse_precision (s : string) : option (ArgSpec * string) :=
  match s with
  | EmptyString => Some (Absent, s)
  | String c rest =>
      if (c =? ".")%char then
        match parse_arg_spec rest with
        | Some (Absent, r) => Some (Literally 0, r)
        | other => other
        end
      else Some (Absent, s)
  end.

(** Modelled from the spec: the Directive Parser of the missing
    [./_/printf.ts] (section 4.2), on the raw text of one span:
    ['%' ['[' INDEX ']'] FLAGS* WIDTH ['.' PRECISION] VERB]. *)
Definition parse (raw : string) : parse_result :=
  match parse_index raw with
  | None => Malformed
  | Some (idx, s1) =>
      let (fl, s2) := parse_flags no_flags s1 in
      match parse_arg_spec s2 with
      | None => Malformed
      | Some (w, s3) =>
          match parse_precision s3 with
          | None => Malformed
          | Some (p, s4) =>
              match s4 with
              | String c EmptyString =>
                  match verb_of_char c with
                  | Some _ => Parsed (mkDirective c fl w p idx)
                  | None => BadVerb c
                  end
              | _ => Malformed
              end
          end
      end
  end.

(** *** Argument Cursor (section 4.3) *)

(** Modelled from the spec: the [Cursor] of section 3, the only mutable
    state of one render of the missing [./_/printf.ts]. *)
Record Cursor : Type := mkCursor
  { nextImplicitIndex : nat }.

(** Modelled from the spec: the recoverable failures of section 7 that are
    raised after parsing in the missing [./_/printf.ts]: a missing argument,
    an argument the verb (or a [*] width or precision) cannot coerce, an
    argument without the display capability, and an argument of the [<]
    modifier that is not a sequence. *)
Inductive failure : Type :=
| MissingArgument
| BadOperand (v : value)
| NoDisplay
| NotSequence (v : value).

(** Modelled from the spec: the tagged outcome of section 9, which every
    step of the missing [./_/printf.ts] returns instead of raising. *)
Inductive outcome (A : Type) : Type :=
| Resolved (a : A)
| Failed (f : failure).

Arguments Resolved {A} _.
Arguments Failed {A} _.

Definition and_then {A B : Type} (o : outcome A) (k : A -> outcome B) : outcome B :=
  match o with
  | Resolved a => k a
  | Failed f => Failed f
  end.

(** Modelled from the spec: [nextArg()] of the Argument Cursor of the
    missing [./_/printf.ts]: the argument at [nextImplicitIndex], advancing
    it by one; out of bounds is the captured missing-argument condition. *)
Definition nextArg (args : list value) (cur : Cursor) : outcome value * Cursor :=
  match nth_error args (nextImplicitIndex cur) with
  | Some v => (Resolved v, mkCursor (S (nextImplicitIndex cur)))
  | None => (Failed MissingArgument, cur)
  end.

(** Modelled from the spec: [argAt(i)] of the Argument Cursor of the missing
    [./_/printf.ts]: the argument at absolute index [i]; only the call
    attached to a directive sets [nextImplicitIndex] to [i + 1]. *)
Definition argAt (args : list value) (i : nat) (attached : bool) (cur : Cursor)
  : outcome value * Cursor :=
  match nth_error args i with
  | Some v => (Resolved v, if attached then mkCursor (S i) else cur)
  | None => (Failed MissingArgument, cur)
  end.

(** A positional index [[n]] counts from 1: it names the absolute index
    [n - 1], and [[0]] names no argument. *)
Definition argAtPosition (args : list value) (n : nat) (attached : bool) (cur : Cursor)
  : outcome value * Cursor :=
  match n with
  | O => (Failed MissingArgument, cur)
  | S i => argAt args i attached cur
  end.

(** The value of a [*] width or precision: a number, read as a non-negative
    integer. *)
Definition as_size (v : value) : outcome (option nat) :=
  match v with
  | VNum x =>
      match toInteger x with
      | Some z => if (0 <=? z)%Z then Resolved (Some (Z.to_nat z)) else Failed (BadOperand v)
      | None => Failed (BadOperand v)
      end
  | _ => Failed (BadOperand v)
  end.

(** Modelled from the spec: how the missing [./_/printf.ts] resolves a width
    or precision: literal text, or a [*]-form that reads the argument list
    (the sequential form consumes one argument and advances the cursor). *)
Definition read_spec (args : list value) (sp : ArgSpec) (cur : Cursor)
  : outcome (option nat) * Cursor :=
  match sp with
  | Absent => (Resolved None, cur)
  | Literally n => (Resolved (Some n), cur)
  | FromArg => let (o, cur') := nextArg args cur in (and_then o as_size, cur')
  | FromArgAt n => let (o, cur') := argAtPosition args n false cur in (and_then o as_size, cur')
  end.

(** Modelled from the spec: the argument a directive of the missing
    [./_/printf.ts] consumes: the one at its explicit index, which resets
    the sequential counter, or else the next one. *)
Definition read_operand (args : list value) (d : Directive) (cur : Cursor)
  : outcome value * Cursor :=
  match explicitIndex d with
  | Some n => argAtPosition args n true cur
  | None => nextArg args cur
  end.

(** The absolute index of the argument a directive consumes when the cursor
    stands at [cur]; [[0]] names none. *)
Definition operand_index (d : Directive) (cur : Cursor) : option nat :=
  match explicitIndex d with
  | Some (S i) => Some i
  | Some O => None
  | None => Some (nextImplicitIndex cur)
  end.

(** Modelled from the spec: the invariant of section 3 on the cursor of the
    missing [./_/printf.ts]: it never passes the end of the argument list. *)
Definition within_arguments (args : list value) (cur : Cursor) : Prop :=
  nextImplicitIndex cur <= List.length args.

(** *** Verb Formatter (section 4.4) *)

Definition digit_char (upper : bool) (d : N) : ascii :=
  if (d <? 10)%N then ascii_of_N (48 + d)
  else ascii_of_N ((if upper then 55 else 87) + d).

Fixpoint radix_loop (fuel : nat) (base : N) (upper : bool) (n : N) (acc : string) : string :=
  match fuel with
  | O => acc
  | S k =>
      let acc' := String (digit_char upper (n mod base)) acc in
      if (n / base =? 0)%N then acc' else radix_loop k base upper (n / base) acc'
  end.

(** The digits of [n] in base [base] (2, 8, 10 or 16), most significant
    first. *)
Definition radix_digits (base : N) (upper : bool) (n : N) : string :=
  radix_loop (S (N.to_nat (N.log2 n))) base upper n EmptyString.

(** The prefix the [#] flag puts before the digits. *)
Definition radix_prefix (base : N) (upper : bool) : string :=
  if (base =? 2)%N then "0b"
  else if (base =? 8)%N then "0"
  else if (base =? 16)%N then (if upper then "0X" else "0x")
  else "".

Definition hex_pair (upper : bool) (c : ascii) : string :=
  let n := N_of_ascii c in
  String (digit_char upper (n / 16)) (String (digit_char upper (n mod 16)) EmptyString).

(** A string as a byte sequence, two hex digits per byte, with a space
    between the bytes when [spaced]. *)
Fixpoint hex_bytes (upper spaced : bool) (s : string) : string :=
  match s with
  | EmptyString => EmptyString
  | String c EmptyString => hex_pair upper c
  | String c rest =>
      hex_pair upper c ++ (if spaced then " " else "") ++ hex_bytes upper spaced rest
  end.

Definition truncate (p : option nat) (s : string) : string :=
  match p with
  | Some n => take n s
  | None => s
  end.

(** The sign that goes before the digits of a number. *)
Definition sign_text (fl : Flags) (negative : bool) : string :=
  if negative then "-" else if plus fl then "+" else if space fl then " " else "".

Definition plain_text (rt : Runtime) (v : value) : string :=
  match v with
  | VStr s => s
  | _ => toString rt v
  end.

(** Modelled from the spec: the Verb Formatter of the missing
    [./_/printf.ts] (table of section 4.4): one conversion per verb variant,
    from the resolved argument, the flags and the precision to a sign and an
    unpadded body, or a recoverable failure. *)
Definition convert (rt : Runtime) (c : ascii) (k : Verb) (fl : Flags) (p : option nat)
  (v : value) : outcome (string * string) :=
  match k with
  | VerbBoolean => Resolved ("", if truthy v then "true" else "false")
  | VerbInteger base upper =>
      match v with
      | VNum x =>
          match toInteger x with
          | Some z =>
              Resolved (sign_text fl (z <? 0)%Z,
                        (if hash fl then radix_prefix base upper else "")
                          ++ radix_digits base upper (Z.abs_N z))
          | None => Failed (BadOperand v)
          end
      | VStr s =>
          if (base =? 16)%N
          then Resolved ("", hex_bytes upper (space fl) (truncate p s))
          else Failed (BadOperand v)
      | _ => Failed (BadOperand v)
      end
  | VerbChar =>
      match v with
      | VNum x =>
          match toInteger x with
          | Some z => Resolved ("", fromCodePoint rt z)
          | None => Failed (BadOperand v)
          end
      | _ => Failed (BadOperand v)
      end
  | VerbFloat =>
      match v with
      | VNum x =>
          let digits :=
            if (c =? "g")%char || (c =? "G")%char then p
            else Some (match p with Some n => n | None => 6 end) in
          Resolved (sign_text fl (PrimFloat.ltb x 0), floatText rt c (hash fl) digits x)
      | _ => Failed (BadOperand v)
      end
  | VerbString => Resolved ("", truncate p (plain_text rt v))
  | VerbType => Resolved ("", typeof v)
  | VerbValue =>
      Resolved ("", if hash fl then inspect rt false p v else plain_text rt v)
  | VerbJson expanded => Resolved ("", stringify rt expanded v)
  | VerbInspect expanded => Resolved ("", inspect rt expanded None v)
  | VerbDisplay =>
      match display rt v with
      | Some text => Resolved ("", text)
      | None => Failed NoDisplay
      end
  | VerbPercent => Resolved ("", "%")
  end.

(** *** Padder (section 4.5) *)

(** Modelled from the spec: the Padder of the missing [./_/printf.ts]:
    spaces on the left by default, zeros between the sign and the body under
    the [0] flag, spaces on the right under the [-] flag whatever the [0]
    flag says. *)
Definition pad (fl : Flags) (w : option nat) (sign body : string) : string :=
  let fill := match w with
              | Some n => n - (String.length sign + String.length body)
              | None => 0
              end in
  if minus fl then sign ++ body ++ repeat_char " " fill
  else if zero fl then sign ++ repeat_char "0" fill ++ body
  else repeat_char " " fill ++ sign ++ body.

(** *** Assembler (section 4.6) *)

(** Modelled from the spec: the token for an unknown verb (section 4.6). *)
Definition bad_verb_token (c : ascii) : string :=
  "%!(BAD VERB '" ++ String c "')".

(** Modelled from the spec: the token for a missing argument (section 4.6). *)
Definition missing_token (c : ascii) : string :=
  "%!(MISSING '" ++ String c "')".

(** Modelled from the spec: the in-band token of each recoverable failure of
    the missing [./_/printf.ts]; the specification fixes the text for a
    missing argument only. *)
Definition failure_token (rt : Runtime) (c : ascii) (f : failure) : string :=
  match f with
  | MissingArgument => missing_token c
  | BadOperand v => coercionToken rt c v
  | NoDisplay => noDisplayToken rt c
  | NotSequence v => coercionToken rt "<" v
  end.

(** One argument through the Verb Formatter and the Padder. *)
Definition render_value (rt : Runtime) (d : Directive) (k : Verb)
  (w p : option nat) (v : value) : string :=
  match convert rt (verb d) k (flags d) p v with
  | Resolved (sign, body) => pad (flags d) w sign body
  | Failed f => failure_token rt (verb d) f
  end.

(** Modelled from the spec: how the Assembler of the missing
    [./_/printf.ts] resolves one parsed directive: width, precision, then
    the argument (none for the verb [%]); with the [<] modifier the
    directive is applied to every element of a sequence-valued argument. *)
Definition render_directive (rt : Runtime) (args : list value) (d : Directive)
  (k : Verb) (cur : Cursor) : string * Cursor :=
  let (ow, c1) := read_spec args (width d) cur in
  match ow with
  | Failed f => (failure_token rt (verb d) f, c1)
  | Resolved w =>
      let (op, c2) := read_spec args (precision d) c1 in
      match op with
      | Failed f => (failure_token rt (verb d) f, c2)
      | Resolved p =>
          match k with
          | VerbPercent => (render_value rt d k w p VUndefined, c2)
          | _ =>
              let (ov, c3) := read_operand args d c2 in
              match ov with
              | Failed f => (failure_token rt (verb d) f, c3)
              | Resolved v =>
                  if spread (flags d) then
                    match v with
                    | VArr xs => (joinSpread rt (map (render_value rt d k w p) xs), c3)
                    | _ => (failure_token rt (verb d) (NotSequence v), c3)
                    end
                  else (render_value rt d k w p v, c3)
              end
          end
      end
  end.

(** Modelled from the spec: one step of the Assembler of the missing
    [./_/printf.ts]: the text of a segment and the cursor after it. *)
Definition render_segment (rt : Runtime) (args : list value) (cur : Cursor)
  (seg : segment) : string * Cursor :=
  match seg with
  | Literal text => (text, cur)
  | Percent => ("%", cur)
  | Dangling raw => (malformedToken rt (String "%" raw), cur)
  | Span raw =>
      match parse raw with
      | Malformed => (malformedToken rt (String "%" raw), cur)
      | BadVerb c => (bad_verb_token c, cur)
      | Parsed d =>
          match verb_of_char (verb d) with
          | Some k => render_directive rt args d k cur
          | None => (bad_verb_token (verb d), cur)
          end
      end
  end.

(** Modelled from the spec: a [FormattedSegment] of section 3, kept with the
    segment it renders and the cursor the Assembler held before it. *)
Record FormattedSegment : Type := mkFormatted
  { source : segment;
    cursor_before : Cursor;
    text : string }.

(** Modelled from the spec: the Assembler of the missing [./_/printf.ts]
    (section 4.6): it walks the segments in order and threads the cursor. *)
Fixpoint assemble (rt : Runtime) (args : list value) (segs : list segment)
  (cur : Cursor) : list FormattedSegment :=
  match segs with
  | [] => []
  | seg :: rest =>
      let (t, cur') := render_segment rt args cur seg in
      mkFormatted seg cur t :: assemble rt args rest cur'
  end.

(** The concatenation of the texts of the assembled segments. *)
Definition render_all (rt : Runtime) (args : list value) (segs : list segment)
  (cur : Cursor) : string :=
  concat_all (map text (assemble rt args segs cur)).

(** Modelled from the spec: [sprintf] of the missing [./_/printf.ts]: scan,
    assemble from a fresh cursor, concatenate. *)
Definition sprintf (rt : Runtime) (formatter : string) (args : list value) : string :=
  render_all rt args (scan formatter) (mkCursor 0).

(** Section 8, as the specification words it: a template is literal-only
    when each of its [%] is half of a [%%] pair. *)
Fixpoint literal_only (tpl : string) : bool :=
  match tpl with
  | EmptyString => true
  | String c rest =>
      if (c =? "%")%char then
        match rest with
        | String c' rest' => (c' =? "%")%char && literal_only rest'
        | EmptyString => false
        end
      else literal_only rest
  end.

(** Section 8, as the specification words it: the template with every [%%]
    collapsed to [%] and every other character unchanged. *)
Fixpoint collapse (tpl : string) : string :=
  match tpl with
  | EmptyString => EmptyString
  | String c rest =>
      if (c =? "%")%char then
        match rest with
        | String c' rest' =>
            if (c' =? "%")%char then String "%" (collapse rest')
            else String c (collapse rest)
        | EmptyString => String c EmptyString
        end
      else String c (collapse rest)
  end.

(** A runtime for closed examples.  Primitive values are stringified as
    JavaScript does, and an integral number in fixed notation is its digits,
    a point and as many zeros as the precision asks for; every other request
    the specification leaves to the host is answered with a placeholder. *)
Definition sample_toString (v : value) : string :=
  match v with
  | VUndefined => "undefined"
  | VNull => "null"
  | VBool b => if b then "true" else "false"
  | VNum x =>
      match toInteger x with
      | Some z => (if (z <? 0)%Z then "-" else "") ++ radix_digits 10 false (Z.abs_N z)
      | None => "NaN"
      end
  | VStr s => s
  | _ => "[object Object]"
  end.

Definition sample_floatText (c : ascii) (alternate : bool) (digits : option nat)
  (x : float) : string :=
  match toInteger x, digits with
  | Some z, Some n =>
      if ((c =? "f")%char || (c =? "F")%char) && PrimFloat.eqb x (number_of_Z z)
      then radix_digits 10 false (Z.abs_N z)
           ++ (if (n =? 0)%nat then "" else String "." (repeat_char "0" n))
      else "[float]"
  | _, _ => "[float]"
  end.

Definition sample_runtime : Runtime :=
  mkRuntime sample_toString (fun _ _ _ => "[inspect]") (fun _ _ => "[json]")
            sample_floatText (fun _ => "[char]") (fun _ => None)
            (fun pieces => concat_all pieces) (fun raw => "%!(BAD FORMAT)")
            (fun _ _ => "%!(BAD TYPE)") (fun _ => "%!(NO DISPLAY)").

End Printf.

(** ** JavaScript computations *)

(** How a call ends: it returns a value or it throws one. *)
Inductive completion (A : Type) : Type :=
| Returns (a : A)
| Throws (e : value).

Arguments Returns {A} _.
Arguments Throws {A} _.

(** A computation that may touch the world outside (a byte sink, whatever a
    callback closes over) and may throw. *)
Definition Js (World A : Type) : Type := World -> completion A * World.

Section JsMonad.
Context {World : Type}.

Definition ret {A : Type} (a : A) : Js World A :=
  fun w => (Returns a, w).

Definition throw {A : Type} (e : value) : Js World A :=
  fun w => (Throws e, w).

Definition bind {A B : Type} (m : Js World A) (k : A -> Js World B) : Js World B :=
  fun w =>
    match m w with
    | (Returns a, w') => k a w'
    | (Throws e, w') => (Throws e, w')
    end.

(** [try { body } catch (error) { handler }]. *)
Definition try_catch {A : Type} (body : Js World A) (handler : value -> Js World A)
  : Js World A :=
  fun w =>
    match body w with
    | (Returns a, w') => (Returns a, w')
    | (Throws e, w') => handler e w'
    end.
End JsMonad.

Notation "x <- m ;; k" := (bind m (fun x => k))
  (at level 61, m at next level, right associativity).
Notation "m ;;; k" := (bind m (fun _ => k))
  (at level 61, right associativity).

(** What the sources import as [sprintf] from [./_/printf.ts]: a call that
    takes the template and the arguments.  The sources below are written
    against any such function; [engine] is the one the specification
    describes. *)
Definition Sprintf (World : Type) : Type := string -> list value -> Js World string.

(** Modelled from the spec: the [sprintf] export of the missing
    [./_/printf.ts] as a call: it returns the rendered string, touches
    nothing and does not throw (section 6: pure and total). *)
Definition engine {World : Type} (rt : Printf.Runtime) : Sprintf World :=
  fun formatter args => ret (Printf.sprintf rt formatter args).



Section StatefulEngine.
Context {World : Type} (rt : Printf.Runtime).





End StatefulEngine.

(** ** panic.ts *)

Module Panic.
Section Panic.
Context {World : Type} (sprintf : Sprintf World).

(** src/panic.ts: a string is formatted with the remaining arguments and
    the formatted string is thrown; any other value is thrown as it is. *)
Definition panic {A : Type} (val : value) (args : list value) : Js World A :=
  match val with
  | VStr formatter =>
      message <- sprintf formatter args ;;
      throw (VStr message)
  | _ => throw val
  end.

(** src/unnamed/part_002, the documented revision of panic.ts: the
    formatted message is wrapped in [new Error(...)] before it is thrown. *)
Definition panic_Error {A : Type} (val : value) (args : list value) : Js World A :=
  match val with
  | VStr formatter =>
      message <- sprintf formatter args ;;
      throw (VError message)
  | _ => throw val
  end.

(** The two revisions of panic.ts that Option.ts and Result.ts may import. *)
Inductive revision : Type := Plain | Documented.

Definition panic_of (rev : revision) {A : Type} : value -> list value -> Js World A :=
  match rev with
  | Plain => panic
  | Documented => panic_Error
  end.
End Panic.
End Panic.

(** ** Result.ts *)

Module Result.

Definition Result : Type := ResultFields value.

(** [protected constructor(isError: boolean, value?: T, error?: E)]; an
    argument left out is [undefined]. *)
Definition constructor (isError : bool) (val error : value) : Result :=
  mkResult val error isError.

Definition from_ok (val : value) : Result :=
  constructor false val VUndefined.

Definition from_err (error : value) : Result :=
  constructor true VUndefined error.

(** [Ok(value?)]; [Ok()] is [Ok VUndefined]. *)
Definition Ok (val : value) : Result := from_ok val.

(** [Err(error?)]. *)
Definition Err (error : value) : Result := from_err error.

Definition isOk (this : Result) : bool := negb (res_isError this).

Definition isErr (this : Result) : bool := res_isError this.

(** [this.isErr] read as a property, without a call: the method object. *)
Definition isErr_property (this : Result) : value := VFunc "isErr".

Section Methods.
Context {World : Type} (sprintf : Sprintf World) (rev : Panic.revision).

Definition expect (this : Result) (message : value) : Js World value :=
  (if res_isError this then Panic.panic_of sprintf rev message [] else ret VUndefined) ;;;
  ret (res_value this).

Definition expectErr (this : Result) (message : value) : Js World value :=
  (if negb (res_isError this) then Panic.panic_of sprintf rev message []
   else ret VUndefined) ;;;
  ret (res_error this).

Definition unwrap (this : Result) : Js World value :=
  expect this (res_error this).

Definition unwrapErr (this : Result) : Js World value :=
  expectErr this (res_value this).

Definition and (this res : Result) : Result :=
  if res_isError this then this else res.

(** The condition is [!this.isErr], the negation of the method object,
    not of a call of it. *)
Definition andThen (this : Result) (cb : value -> Js World Result) : Js World Result :=
  if negb (truthy (isErr_property this)) then cb (res_value this)
  else ret this.

Definition or (this res : Result) : Result :=
  if (res_isError this && res_isError res) || (res_isError this && negb (res_isError res))
  then res else this.

Definition orElse (this : Result) (cb : value -> Js World Result) : Js World Result :=
  if res_isError this then cb (res_error this) else ret this.

Definition unwrapOr (this : Result) (val : value) : value :=
  if res_isError this then val else res_value this.

Definition unwrapOrElse (this : Result) (cb : value -> Js World value) : Js World value :=
  if res_isError this then cb (res_error this) else ret (res_value this).
End Methods.
End Result.

(** ** Option.ts *)

Module Option.

Definition Option : Type := OptionFields value.

(** [protected constructor(value?: { value: T })]: [wrapper] is the
    argument, [Some v] for the object [{ value: v }] and [None] when it is
    left out. *)
Definition constructor (wrapper : option value) : Option :=
  match wrapper with
  | Datatypes.Some v => mkOption true v
  | Datatypes.None => mkOption false VUndefined
  end.

Definition create_none : Option := constructor Datatypes.None.

Definition create_some (val : value) : Option := constructor (Datatypes.Some val).

Definition None : Option := create_none.

(** [Some(value?)]; [Some()] is [Some VUndefined]. *)
Definition Some (val : value) : Option := create_some val.

Definition isSome (this : Option) : bool := opt_has this.

Definition isNone (this : Option) : bool := negb (opt_has this).

Section Methods.
Context {World : Type} (sprintf : Sprintf World) (rev : Panic.revision).

Definition isSomeAnd (this : Option) (cb : value -> Js World bool) : Js World bool :=
  if opt_has this then cb (opt_value this) else ret false.

Definition expect (this : Option) (message : string) : Js World value :=
  (if negb (opt_has this) then Panic.panic_of sprintf rev (VStr message) []
   else ret VUndefined) ;;;
  ret (opt_value this).

Definition unwrap (this : Option) : Js World value :=
  expect this "Option does not contain a value!".

Definition unwrapOr (this : Option) (val : value) : value :=
  if opt_has this then opt_value this else val.

(** [cb] stands for the call [cb()]. *)
Definition unwrapOrElse (this : Option) (cb : Js World value) : Js World value :=
  if opt_has this then ret (opt_value this) else cb.

(** [newValue instanceof Option] decides between returning the callback's
    result itself and wrapping it. *)
Definition map (this : Option) (cb : value -> Js World value) : Js World Option :=
  if opt_has this then
    newValue <- cb (opt_value this) ;;
    match newValue with
    | VOption o => ret o
    | _ => ret (Some newValue)
    end
  else ret None.

Definition mapOr (this : Option) (val : value) (cb : value -> Js World value)
  : Js World value :=
  if opt_has this then cb (opt_value this) else ret val.

Definition okOr (this : Option) (err : value) : Result.Result :=
  if opt_has this then Result.Ok (opt_value this) else Result.Err err.

Definition andThen (this : Option) (f : value -> Js World Option) : Js World Option :=
  if opt_has this then f (opt_value this) else ret None.

(** [d] stands for the call [d()]. *)
Definition mapOrElse (this : Option) (d : Js World value) (cb : value -> Js World value)
  : Js World value :=
  if opt_has this then cb (opt_value this) else d.

(** [cb] stands for the call [cb()]. *)
Definition okOrElse (this : Option) (cb : Js World value) : Js World Result.Result :=
  if opt_has this then ret (Result.Ok (opt_value this))
  else err <- cb ;; ret (Result.Err err).

Definition and (this other : Option) : Option :=
  if opt_has this && opt_has other then other else None.

(** [this.#has && predicate(this.#value)]: the predicate is called only
    when there is a value. *)
Definition filter (this : Option) (predicate : value -> Js World bool) : Js World Option :=
  if opt_has this then
    keep <- predicate (opt_value this) ;;
    if keep then ret this else ret None
  else ret None.

Definition or (this other : Option) : Option :=
  if negb (opt_has this) && opt_has other then other else this.

(** [f] stands for the call [f()]. *)
Definition orElse (this : Option) (f : Js World Option) : Js World Option :=
  if negb (opt_has this) then
    other <- f ;;
    if isNone other then ret this else ret other
  else ret this.

Definition xor (this other : Option) : Option :=
  if opt_has other && opt_has this then None
  else if negb (opt_has other) && opt_has this then this
  else if opt_has other && negb (opt_has this) then other
  else None.

(** The methods below assign to [#value] and [#has].  Each returns its
    result together with the fields of the receiver after the call. *)

Definition insert (this : Option) (val : value) : value * Option :=
  (val, mkOption true val).

Definition getOrInsert (this : Option) (val : value) : value * Option :=
  if opt_has this then (opt_value this, this)
  else (val, mkOption true val).

(** [f] stands for the call [f()].  Only [#value] is assigned; [#has] is
    left as it was.  When [f] throws nothing is assigned. *)
Definition getOrInsertWith (this : Option) (f : Js World value)
  : Js World (value * Option) :=
  if opt_has this then ret (opt_value this, this)
  else
    val <- f ;;
    ret (val, mkOption (opt_has this) val).

(** Without a value [take] returns the receiver itself. *)
Definition take (this : Option) : Option * Option :=
  if opt_has this then (Some (opt_value this), mkOption false VUndefined)
  else (this, this).

Definition replace (this : Option) (val : value) : Option * Option :=
  let oldValue := opt_value this in
  let oldHadValue := opt_has this in
  (if oldHadValue then Some oldValue else None, mkOption true val).

Definition flatten (this : Option) : Option :=
  if opt_has this then
    match opt_value this with
    | VOption inner => inner
    | _ => this
    end
  else this.
End Methods.
End Option.

(** ** ops.ts *)

Module Ops.

(** [Deno.WriterSync]: an object with a [writeSync(p: Uint8Array)] method,
    which returns the number of bytes written or throws. *)
Record WriterSync (World : Type) : Type := mkWriterSync
  { writeSync : list Byte.byte -> Js World value }.

Arguments writeSync {World} _ _.

(** [e.encode(s)] for [const e = new TextEncoder()]: the bytes of [s]. *)
Definition encode (s : string) : list Byte.byte := list_byte_of_string s.

Section Ops.
Context {World : Type} (sprintf : Sprintf World).

(** [format(formatter, ...args)] returns [sprintf(formatter, ...args)]. *)
Definition format (formatter : string) (args : list value) : Js World string :=
  sprintf formatter args.

(** [write(stream, formatter, ...args)]: one [writeSync] of the encoded
    text inside [try], [Ok()] after it, [Err(error)] from the [catch]. *)
Definition write (stream : WriterSync World) (formatter : string) (args : list value)
  : Js World Result.Result :=
  try_catch
    (text <- format formatter args ;;
     writeSync stream (encode text) ;;;
     ret (Result.Ok VUndefined))
    (fun error => ret (Result.Err error)).
End Ops.
End Ops.

(** ** Closed inputs for the examples *)

(** A callback wrapped so that the world also counts its invocations. *)
Definition counted {World A B : Type} (cb : A -> Js World B) : A -> Js (World * nat) B :=
  fun a wn =>
    let (r, w') := cb a (fst wn) in (r, (w', S (snd wn))).

(** A parameterless callback wrapped in the same way. *)
Definition counted_call {World B : Type} (c : Js World B) : Js (World * nat) B :=
  counted (fun _ : unit => c) tt.

(** A sink that keeps what it is given. *)
Definition logging_sink : Ops.WriterSync (list (list Byte.byte)) :=
  Ops.mkWriterSync _
    (fun bytes log => (Returns (VNum (number_of_Z (Z.of_nat (List.length bytes)))),
                       log ++ [bytes])%list).

(** A sink that refuses every write. *)
Definition closed_sink : Ops.WriterSync (list (list Byte.byte)) :=
  Ops.mkWriterSync _ (fun _ log => (Throws (VError "closed"), log)).

(** A [sprintf] that throws, to exercise callers that must not rely on it. *)
Definition failing_sprintf {World : Type} : Sprintf World :=
  fun _ _ => throw (VError "sprintf failed").

(** * Properties *)

(** ** ops.ts: write *)

Lemma write_unfold {World : Type} (sprintf : Sprintf World) (stream : Ops.WriterSync World)
  (formatter : string) (args : list value) (w : World) :
  Ops.write sprintf stream formatter args w =
  match sprintf formatter args w with
  | (Returns text, w1) =>
      match Ops.writeSync stream (Ops.encode text) w1 with
      | (Returns _, w2) => (Returns (Result.Ok VUndefined), w2)
      | (Throws e, w2) => (Returns (Result.Err e), w2)
      end
  | (Throws e, w1) => (Returns (Result.Err e), w1)
  end.
Proof.
  unfold Ops.write, Ops.format, try_catch, bind, ret.
  destruct (sprintf formatter args w) as [[text | e] w1]; [| reflexivity].
  destruct (Ops.writeSync stream (Ops.encode text) w1) as [[n | e] w2]; reflexivity.
Qed.

(** C1: [write] performs the sink's [writeSync] once, on the encoded text.
    When that call returns, [write] returns the success outcome [Ok()]; when
    it throws [e], [write] returns the failure outcome [Err(e)], whose error
    is exactly [e]; in every case [write] returns and does not throw.  This
    holds for every sink and for whatever [sprintf] is imported. *)
Theorem write_reports_sink_outcome :
  forall (World : Type) (sprintf : Sprintf World) (stream : Ops.WriterSync World)
         (formatter : string) (args : list value) (w : World),
    (forall text w1 n w2,
        sprintf formatter args w = (Returns text, w1) ->
        Ops.writeSync stream (Ops.encode text) w1 = (Returns n, w2) ->
        Ops.write sprintf stream formatter args w = (Returns (Result.Ok VUndefined), w2)
        /\ Result.isOk (Result.Ok VUndefined) = true)
    /\ (forall text w1 e w2,
        sprintf formatter args w = (Returns text, w1) ->
        Ops.writeSync stream (Ops.encode text) w1 = (Throws e, w2) ->
        Ops.write sprintf stream formatter args w = (Returns (Result.Err e), w2)
        /\ Result.isErr (Result.Err e) = true
        /\ res_error (Result.Err e) = e)
    /\ (exists r w', Ops.write sprintf stream formatter args w = (Returns r, w')).
Proof.
  intros World sprintf stream formatter args w.
  split; [| split].
  - intros text w1 n w2 Hfmt Hsink. rewrite write_unfold, Hfmt, Hsink.
    split; reflexivity.
  - intros text w1 e w2 Hfmt Hsink. rewrite write_unfold, Hfmt, Hsink.
    repeat split.
  - rewrite write_unfold.
    destruct (sprintf formatter args w) as [[text | e] w1]; [| eauto].
    destruct (Ops.writeSync stream (Ops.encode text) w1) as [[n | e] w2]; eauto.
Qed.

Lemma write_reports_sink_outcome_witness :
  Ops.write (engine Printf.sample_runtime) logging_sink "%s!" [VStr "hi"] []
    = (Returns (Result.Ok VUndefined), [Ops.encode "hi!"])
  /\ Ops.write (engine Printf.sample_runtime) closed_sink "%s!" [VStr "hi"] []
    = (Returns (Result.Err (VError "closed")), [])
  /\ (exists r w', Ops.write failing_sprintf logging_sink "%s!" [VStr "hi"] []
                   = (Returns r, w')).
Proof.
  destruct (write_reports_sink_outcome _ (engine Printf.sample_runtime) logging_sink
              "%s!" [VStr "hi"] []) as [Hok _].
  destruct (write_reports_sink_outcome _ (engine Printf.sample_runtime) closed_sink
              "%s!" [VStr "hi"] []) as [_ [Herr _]].
  destruct (write_reports_sink_outcome _ failing_sprintf logging_sink
              "%s!" [VStr "hi"] []) as [_ [_ Hreturns]].
  split; [| split].
  - apply (Hok "hi!" [] (VNum 3) [Ops.encode "hi!"]); reflexivity.
  - apply (Herr "hi!" [] (VError "closed") []); reflexivity.
  - exact Hreturns.
Defined.

(** ** panic.ts *)

Lemma typeof_string (v : value) :
  typeof v = "string" <-> exists s, v = VStr s.
Proof.
  split.
  - destruct v; simpl; intros H; try discriminate H. eauto.
  - intros [s ->]. reflexivity.
Qed.

Lemma panic_of_throws {World : Type} (sprintf : Sprintf World) (rev : Panic.revision)
  (A : Type) (val : value) (args : list value) (w : World) :
  exists e w', Panic.panic_of sprintf rev (A := A) val args w = (Throws e, w').
Proof.
  destruct rev, val; simpl; unfold Panic.panic, Panic.panic_Error, bind, throw;
    try (eexists; eexists; reflexivity);
    destruct (sprintf s args w) as [[message | e] w']; eauto.
Qed.

Lemma panic_of_message {World : Type} (sprintf : Sprintf World) (rev : Panic.revision)
  (A : Type) (formatter message : string) (args : list value) (w w' : World) :
  sprintf formatter args w = (Returns message, w') ->
  Panic.panic_of sprintf rev (A := A) (VStr formatter) args w
  = (Throws match rev with
            | Panic.Plain => VStr message
            | Panic.Documented => VError message
            end, w').
Proof.
  intros Hfmt. destruct rev; simpl; unfold Panic.panic, Panic.panic_Error, bind, throw;
    now rewrite Hfmt.
Qed.

Lemma panic_of_value {World : Type} (sprintf : Sprintf World) (rev : Panic.revision)
  (A : Type) (val : value) (args : list value) (w : World) :
  typeof val <> "string" ->
  Panic.panic_of sprintf rev (A := A) val args w = (Throws val, w).
Proof.
  intros Hty. destruct rev, val; try reflexivity; exfalso; apply Hty; reflexivity.
Qed.

(** C8: [panic] never returns.  With a string first argument it throws the
    message [sprintf] makes of that string and the remaining arguments (the
    message itself in src/panic.ts, an [Error] with that message in the
    documented revision); with any other first argument it throws that
    value unchanged. *)
Theorem panic_always_throws :
  forall (World : Type) (sprintf : Sprintf World) (A : Type) (args : list value) (w : World),
    (forall formatter message w',
        sprintf formatter args w = (Returns message, w') ->
        Panic.panic (A := A) sprintf (VStr formatter) args w = (Throws (VStr message), w')
        /\ Panic.panic_Error (A := A) sprintf (VStr formatter) args w
           = (Throws (VError message), w'))
    /\ (forall val,
        typeof val <> "string" ->
        Panic.panic (A := A) sprintf val args w = (Throws val, w)
        /\ Panic.panic_Error (A := A) sprintf val args w = (Throws val, w))
    /\ (forall val, exists e w',
        Panic.panic (A := A) sprintf val args w = (Throws e, w'))
    /\ (forall val, exists e w',
        Panic.panic_Error (A := A) sprintf val args w = (Throws e, w')).
Proof.
  intros World sprintf A args w. split; [| split; [| split]].
  - intros formatter message w' Hfmt. split.
    + apply (panic_of_message sprintf Panic.Plain A formatter message args w w' Hfmt).
    + apply (panic_of_message sprintf Panic.Documented A formatter message args w w' Hfmt).
  - intros val Hty. split.
    + apply (panic_of_value sprintf Panic.Plain A val args w Hty).
    + apply (panic_of_value sprintf Panic.Documented A val args w Hty).
  - intros val. apply (panic_of_throws sprintf Panic.Plain A val args w).
  - intros val. apply (panic_of_throws sprintf Panic.Documented A val args w).
Qed.

Lemma panic_always_throws_witness :
  Panic.panic (A := value) (engine Printf.sample_runtime) (VNum 123) [] tt
    = (Throws (VNum 123), tt)
  /\ Panic.panic_Error (A := value) (engine Printf.sample_runtime) (VError "hello world") [] tt
     = (Throws (VError "hello world"), tt)
  /\ Panic.panic (A := value) (engine Printf.sample_runtime) (VStr "hello %s")
       [VStr "world"] tt
     = (Throws (VStr "hello world"), tt)
  /\ Panic.panic_Error (A := value) (engine Printf.sample_runtime) (VStr "hello %s")
       [VStr "world"] tt
     = (Throws (VError "hello world"), tt).
Proof.
  destruct (panic_always_throws unit (engine Printf.sample_runtime) value [] tt)
    as [_ [Hother _]].
  destruct (panic_always_throws unit (engine Printf.sample_runtime) value [VStr "world"] tt)
    as [Hstring _].
  destruct (Hstring "hello %s" "hello world" tt eq_refl) as [Hplain Hdoc].
  split; [| split; [| split]].
  - apply (Hother (VNum 123)). discriminate.
  - apply (Hother (VError "hello world")). discriminate.
  - exact Hplain.
  - exact Hdoc.
Defined.

(** ** Option.ts and Result.ts *)





(** C9: [map] flattens.  On an [Option] holding [v]: when [cb(v)] returns an
    [Option], [map(cb)] returns that very [Option] instead of wrapping it in
    [Some]; when [cb(v)] returns anything else, [map(cb)] returns [Some] of
    it; [cb] runs once.  On an [Option] without a value, [map(cb)] returns
    [None] and [cb] is not run: the world, and the count of invocations, are
    as they were. *)
Theorem map_flattens_options :
  forall (World : Type) (cb : value -> Js World value) (this : Option.Option) (w : World),
    (opt_has this = true ->
       (forall o w',
           cb (opt_value this) w = (Returns (VOption o), w') ->
           Option.map this cb w = (Returns o, w'))
       /\ (forall newValue w',
           cb (opt_value this) w = (Returns newValue, w') ->
           (forall o, newValue <> VOption o) ->
           Option.map this cb w = (Returns (Option.Some newValue), w'))
       /\ (forall n, snd (snd (Option.map this (counted cb) (w, n))) = S n))
    /\ (opt_has this = false ->
       Option.map this cb w = (Returns Option.None, w)
       /\ (forall n, Option.map this (counted cb) (w, n) = (Returns Option.None, (w, n)))).
Proof.
  intros World cb this w. split; intros Hhas.
  - split; [| split].
    + intros o w' Hcb. unfold Option.map, bind. now rewrite Hhas, Hcb.
    + intros newValue w' Hcb Hnot. unfold Option.map, bind. rewrite Hhas, Hcb.
      destruct newValue; try reflexivity.
      exfalso. apply (Hnot o). reflexivity.
    + intros n. unfold Option.map, bind, counted. rewrite Hhas. simpl.
      destruct (cb (opt_value this) w) as [[newValue | e] w']; simpl; [| reflexivity].
      destruct newValue; reflexivity.
  - split; [| intros n]; unfold Option.map; rewrite Hhas; reflexivity.
Qed.

Lemma map_flattens_options_witness :
  Option.map (Option.Some (VNum 1)) (fun v => ret (VOption (Option.Some v))) tt
    = (Returns (Option.Some (VNum 1)), tt)
  /\ Option.map (Option.Some (VNum 1)) (fun v => ret (VArr [v])) tt
    = (Returns (Option.Some (VArr [VNum 1])), tt)
  /\ Option.map Option.None (fun v => throw (World := unit) v) tt
    = (Returns Option.None, tt).
Proof.
  destruct (map_flattens_options unit (fun v => ret (VOption (Option.Some v)))
              (Option.Some (VNum 1)) tt) as [Hsome _].
  destruct (Hsome eq_refl) as [Hflat _].
  destruct (map_flattens_options unit (fun v => ret (VArr [v]))
              (Option.Some (VNum 1)) tt) as [Hsome' _].
  destruct (Hsome' eq_refl) as [_ [Hwrap _]].
  destruct (map_flattens_options unit (fun v => throw v) Option.None tt) as [_ Hnone].
  destruct (Hnone eq_refl) as [Hskip _].
  split; [| split].
  - apply (Hflat (Option.Some (VNum 1)) tt). reflexivity.
  - apply (Hwrap (VArr [VNum 1]) tt); [reflexivity | discriminate].
  - exact Hskip.
Defined.

(** C10 (what the code does): [andThen] tests [!this.isErr], the method
    object instead of a call of it, so the test never passes: [andThen(cb)]
    returns [this] and never runs [cb], also on a success such as [Ok(1)]
    with a callback returning [Ok(2)]. *)
Theorem andThen_ignores_callback :
  (forall (World : Type) (this : Result.Result) (cb : value -> Js World Result.Result)
          (w : World) (n : nat),
      Result.andThen this cb w = (Returns this, w)
      /\ Result.andThen this (counted cb) (w, n) = (Returns this, (w, n)))
  /\ Result.isOk (Result.Ok (VNum 1)) = true
  /\ Result.andThen (Result.Ok (VNum 1)) (fun _ => ret (Result.Ok (VNum 2))) tt
     = (Returns (Result.Ok (VNum 1)), tt)
  /\ Result.Ok (VNum 1) <> Result.Ok (VNum 2).
Proof.
  split; [| split; [| split]].
  - intros World this cb w n. split; reflexivity.
  - reflexivity.
  - reflexivity.
  - intros H.
    apply (f_equal (fun r => match res_value r with
                             | VNum x => toInteger x
                             | _ => None
                             end)) in H.
    vm_compute in H. discriminate H.
Qed.

(** ** The format-string engine *)

Section Engine.
Import Printf.
Variable rt : Runtime.
Variable args : list value.

Lemma append_assoc (a b c : string) : (a ++ b) ++ c = a ++ b ++ c.
Proof.
  induction a as [| x a IH]; simpl; [reflexivity | now rewrite IH].
Qed.

Lemma concat_all_contains (pieces : list string) (p : string) :
  In p pieces -> contains p (concat_all pieces).
Proof.
  induction pieces as [| q pieces IH]; simpl; intros Hin; [contradiction |].
  destruct Hin as [-> | Hin].
  - exists EmptyString, (concat_all pieces). reflexivity.
  - destruct (IH Hin) as [before [after Heq]].
    exists (q ++ before), after. rewrite Heq. symmetry. apply append_assoc.
Qed.

(** Every scanned segment, in order, is given a text: the Assembler skips
    none and stops at none. *)
Lemma assemble_sources (segs : list segment) :
  forall cur, map source (assemble rt args segs cur) = segs.
Proof.
  induction segs as [| seg segs IH]; intros cur; simpl; [reflexivity |].
  destruct (render_segment rt args cur seg) as [t cur']. simpl. now rewrite IH.
Qed.

Lemma assemble_entry (segs : list segment) :
  forall cur e,
    In e (assemble rt args segs cur) ->
    text e = fst (render_segment rt args (cursor_before e) (source e)).
Proof.
  induction segs as [| seg segs IH]; intros cur e; simpl; [contradiction |].
  destruct (render_segment rt args cur seg) as [t cur'] eqn:Hstep.
  intros [<- | Hin].
  - simpl. now rewrite Hstep.
  - apply (IH cur'). exact Hin.
Qed.

Lemma assemble_text_contained (segs : list segment) (cur : Cursor) (e : FormattedSegment) :
  In e (assemble rt args segs cur) ->
  contains (text e) (render_all rt args segs cur).
Proof.
  intros Hin. apply concat_all_contains. now apply in_map.
Qed.

Lemma render_all_push_literal (c : ascii) (segs : list segment) (cur : Cursor) :
  render_all rt args (push_literal c segs) cur = String c (render_all rt args segs cur).
Proof.
  unfold render_all.
  destruct segs as [| [run | | raw | raw] rest]; reflexivity.
Qed.

Lemma render_all_literal_only (cur : Cursor) (tpl : string) :
  (literal_only tpl = true ->
     render_all rt args (scan_from None tpl) cur = collapse tpl)
  /\ (forall c rest,
        tpl = String c rest -> (c =? "%")%char = true -> literal_only rest = true ->
        render_all rt args (scan_from (Some EmptyString) tpl) cur
          = String "%" (collapse rest)).
Proof.
  induction tpl as [| c rest [IHplain IHopen]]; split.
  - reflexivity.
  - intros c rest Heq. discriminate Heq.
  - cbn [literal_only scan_from collapse]. destruct (c =? "%")%char eqn:Hc.
    + destruct rest as [| c' rest']; [discriminate |].
      intros Hlit. apply andb_prop in Hlit as [Hc' Hrest].
      rewrite Hc'. exact (IHopen c' rest' eq_refl Hc' Hrest).
    + intros Hlit. rewrite render_all_push_literal. now rewrite IHplain.
  - intros c0 rest0 Heq Hc Hrest. injection Heq as <- <-.
    cbn [scan_from is_empty andb]. rewrite Hc.
    unfold render_all in *. cbn [assemble render_segment map text concat_all].
    now rewrite (IHplain Hrest).
Qed.

Lemma verb_of_char_percent (c : ascii) :
  verb_of_char c = Some VerbPercent -> c = "%"%char.
Proof.
  unfold verb_of_char.
  repeat match goal with
         | |- context [if ?b then _ else _] => destruct b eqn:?; try discriminate
         end.
  intros _. now apply Ascii.eqb_eq.
Qed.

Lemma parse_verb_known (raw : string) (d : Directive) :
  parse raw = Parsed d -> exists k, verb_of_char (verb d) = Some k.
Proof.
  unfold parse.
  destruct (parse_index raw) as [[idx s1] |]; [| discriminate].
  destruct (parse_flags no_flags s1) as [fl s2].
  destruct (parse_arg_spec s2) as [[w s3] |]; [| discriminate].
  destruct (parse_precision s3) as [[p s4] |]; [| discriminate].
  destruct s4 as [| c [| c' s5]]; try discriminate.
  destruct (verb_of_char c) as [k |] eqn:Hk; [| discriminate].
  intros H. injection H as <-. simpl. eauto.
Qed.

Lemma read_operand_missing (d : Directive) (cur : Cursor) (i : nat) :
  operand_index d cur = Some i -> List.length args <= i ->
  read_operand args d cur = (Failed MissingArgument, cur).
Proof.
  unfold operand_index, read_operand, argAtPosition, argAt, nextArg.
  intros Hidx Hlen.
  destruct (explicitIndex d) as [[| n] |]; try discriminate;
    injection Hidx as <-; apply nth_error_None in Hlen; now rewrite Hlen.
Qed.

Lemma render_directive_missing (d : Directive) (k : Verb) (cur c1 c2 : Cursor)
  (w p : option nat) (i : nat) :
  k <> VerbPercent ->
  read_spec args (width d) cur = (Resolved w, c1) ->
  read_spec args (precision d) c1 = (Resolved p, c2) ->
  operand_index d c2 = Some i -> List.length args <= i ->
  render_directive rt args d k cur = (missing_token (verb d), c2).
Proof.
  intros Hk Hw Hp Hidx Hlen. unfold render_directive.
  rewrite Hw, Hp, (read_operand_missing d c2 i Hidx Hlen).
  destruct k; try reflexivity. now contradiction Hk.
Qed.
Lemma nextArg_within (cur : Cursor) :
  within_arguments args cur -> within_arguments args (snd (nextArg args cur)).
Proof.
  unfold within_arguments, nextArg. intros Hcur.
  destruct (nth_error args (nextImplicitIndex cur)) as [v |] eqn:Hnth; simpl; [| exact Hcur].
  apply Nat.le_succ_l. apply nth_error_Some. now rewrite Hnth.
Qed.

Lemma argAtPosition_within (n : nat) (attached : bool) (cur : Cursor) :
  within_arguments args cur -> within_arguments args (snd (argAtPosition args n attached cur)).
Proof.
  unfold within_arguments, argAtPosition, argAt. intros Hcur.
  destruct n as [| i]; [exact Hcur |].
  destruct (nth_error args i) as [v |] eqn:Hnth; simpl; [| exact Hcur].
  destruct attached; [| exact Hcur]. simpl.
  apply Nat.le_succ_l. apply nth_error_Some. now rewrite Hnth.
Qed.

Lemma read_spec_within (sp : ArgSpec) (cur : Cursor) :
  within_arguments args cur -> within_arguments args (snd (read_spec args sp cur)).
Proof.
  intros Hcur. destruct sp as [| n | | n]; simpl; try exact Hcur.
  - pose proof (nextArg_within cur Hcur) as H.
    destruct (nextArg args cur) as [o cur']. exact H.
  - pose proof (argAtPosition_within n false cur Hcur) as H.
    destruct (argAtPosition args n false cur) as [o cur']. exact H.
Qed.

Lemma read_operand_within (d : Directive) (cur : Cursor) :
  within_arguments args cur -> within_arguments args (snd (read_operand args d cur)).
Proof.
  intros Hcur. unfold read_operand.
  destruct (explicitIndex d) as [n |].
  - now apply argAtPosition_within.
  - now apply nextArg_within.
Qed.

Lemma render_directive_within (d : Directive) (k : Verb) (cur : Cursor) :
  within_arguments args cur -> within_arguments args (snd (render_directive rt args d k cur)).
Proof.
  intros Hcur. unfold render_directive.
  pose proof (read_spec_within (width d) cur Hcur) as H1.
  destruct (read_spec args (width d) cur) as [[w | f] c1]; [| exact H1].
  pose proof (read_spec_within (precision d) c1 H1) as H2.
  destruct (read_spec args (precision d) c1) as [[p | f] c2]; [| exact H2].
  pose proof (read_operand_within d c2 H2) as H3.
  destruct (read_operand args d c2) as [[v | f] c3];
    destruct k; try exact H2; try exact H3;
    destruct (spread (flags d)); try exact H3; destruct v; exact H3.
Qed.

Lemma render_segment_within (seg : segment) (cur : Cursor) :
  within_arguments args cur -> within_arguments args (snd (render_segment rt args cur seg)).
Proof.
  intros Hcur. destruct seg as [run | | raw | raw]; simpl; try exact Hcur.
  destruct (parse raw) as [d | c |]; try exact Hcur.
  destruct (verb_of_char (verb d)) as [k |]; [| exact Hcur].
  now apply render_directive_within.
Qed.

Lemma assemble_within (segs : list segment) :
  forall cur e,
    within_arguments args cur ->
    In e (assemble rt args segs cur) ->
    within_arguments args (cursor_before e).
Proof.
  induction segs as [| seg segs IH]; intros cur e Hcur; simpl; [contradiction |].
  pose proof (render_segment_within seg cur Hcur) as Hnext.
  destruct (render_segment rt args cur seg) as [t cur'].
  intros [<- | Hin]; [exact Hcur |].
  now apply (IH cur').
Qed.
End Engine.

Lemma parse_unknown_verb (c : ascii) :
  Printf.verb_of_char c = None -> Printf.is_syntax c = false ->
  Printf.parse (String c EmptyString) = Printf.BadVerb c.
Proof.
  intros Hverb Hsyn. unfold Printf.is_syntax in Hsyn.
  repeat (apply orb_false_elim in Hsyn as [Hsyn ?]).
  assert (Hflag : Printf.set_flag c Printf.no_flags = None).
  { unfold Printf.set_flag.
    repeat match goal with
           | H : (c =? ?x)%char = false |- context [(c =? ?x)%char] => rewrite H
           end.
    destruct (c =? "0")%char eqn:Hzero; [| reflexivity].
    apply Ascii.eqb_eq in Hzero. subst c. discriminate Hsyn. }
  unfold Printf.parse, Printf.parse_index.
  repeat match goal with
         | H : (c =? ?x)%char = false |- context [(c =? ?x)%char] => rewrite H
         end.
  cbn [Printf.parse_flags]. rewrite Hflag.
  unfold Printf.parse_arg_spec, Printf.parse_precision.
  repeat match goal with
         | H : (c =? ?x)%char = false |- context [(c =? ?x)%char] => rewrite H
         end.
  rewrite Hsyn. cbv beta iota.
  repeat match goal with
         | H : (c =? ?x)%char = false |- context [(c =? ?x)%char] => rewrite H
         end.
  rewrite Hverb. reflexivity.
Qed.

(** C2: [format] returns a string for every template and argument list; the
    Assembler gives a text to every scanned segment.  A directive whose verb
    [c] is unknown is rendered as [%!(BAD VERB 'c')], and a directive whose
    argument index is past the end of the argument list is rendered as
    [%!(MISSING 'v')] for its verb [v]; either token is part of the returned
    string.  In particular [format("%h", "")] contains [%!(BAD VERB 'h')]
    and [format("%d")] contains [%!(MISSING 'd')]. *)
Theorem format_renders_error_tokens :
  forall (World : Type) (rt : Printf.Runtime) (formatter : string) (args : list value)
         (w : World),
    Ops.format (engine rt) formatter args w = (Returns (Printf.sprintf rt formatter args), w)
    /\ map Printf.source
           (Printf.assemble rt args (Printf.scan formatter) (Printf.mkCursor 0))
       = Printf.scan formatter
    /\ (forall e raw c,
          In e (Printf.assemble rt args (Printf.scan formatter) (Printf.mkCursor 0)) ->
          Printf.source e = Printf.Span raw ->
          Printf.parse raw = Printf.BadVerb c ->
          Printf.text e = "%!(BAD VERB '" ++ String c "')"
          /\ contains ("%!(BAD VERB '" ++ String c "')") (Printf.sprintf rt formatter args))
    /\ (forall e raw d wd pr c1 c2 i,
          In e (Printf.assemble rt args (Printf.scan formatter) (Printf.mkCursor 0)) ->
          Printf.source e = Printf.Span raw ->
          Printf.parse raw = Printf.Parsed d ->
          Printf.verb d <> "%"%char ->
          Printf.read_spec args (Printf.width d) (Printf.cursor_before e)
            = (Printf.Resolved wd, c1) ->
          Printf.read_spec args (Printf.precision d) c1 = (Printf.Resolved pr, c2) ->
          Printf.operand_index d c2 = Some i ->
          List.length args <= i ->
          Printf.text e = "%!(MISSING '" ++ String (Printf.verb d) "')"
          /\ contains ("%!(MISSING '" ++ String (Printf.verb d) "')")
                      (Printf.sprintf rt formatter args))
    /\ (forall c,
          Printf.verb_of_char c = None -> Printf.is_syntax c = false ->
          Printf.sprintf rt (String "%" (String c EmptyString)) args
            = "%!(BAD VERB '" ++ String c "')")
    /\ contains "%!(BAD VERB 'h')" (Printf.sprintf rt "%h" [VStr ""])
    /\ contains "%!(MISSING 'd')" (Printf.sprintf rt "%d" []).
Proof.
  intros World rt formatter args w.
  split; [reflexivity |].
  split; [apply assemble_sources |].
  split; [| split; [| split; [| split]]].
  - intros e raw c Hin Hsrc Hparse.
    assert (Htext : Printf.text e = Printf.bad_verb_token c).
    { rewrite (assemble_entry rt args _ _ e Hin), Hsrc. simpl. now rewrite Hparse. }
    split; [exact Htext |].
    change ("%!(BAD VERB '" ++ String c "')") with (Printf.bad_verb_token c).
    rewrite <- Htext. now apply assemble_text_contained.
  - intros e raw d wd pr c1 c2 i Hin Hsrc Hparse Hverb Hw Hp Hidx Hlen.
    assert (Htext : Printf.text e = Printf.missing_token (Printf.verb d)).
    { rewrite (assemble_entry rt args _ _ e Hin), Hsrc. simpl. rewrite Hparse.
      destruct (parse_verb_known raw d Hparse) as [k Hk]. rewrite Hk.
      rewrite (render_directive_missing rt args d k _ c1 c2 wd pr i); auto.
      intros ->. apply Hverb. now apply verb_of_char_percent. }
    split; [exact Htext |].
    change ("%!(MISSING '" ++ String (Printf.verb d) "')")
      with (Printf.missing_token (Printf.verb d)).
    rewrite <- Htext. now apply assemble_text_contained.
  - intros c Hverb Hsyn.
    unfold Printf.sprintf, Printf.scan. cbn [Printf.scan_from Printf.is_empty andb].
    replace ("%" =? "%")%char with true by reflexivity.
    assert (Hc : (c =? "%")%char = false).
    { destruct (c =? "%")%char eqn:Hc; [| reflexivity].
      apply Ascii.eqb_eq in Hc. subst c. discriminate Hverb. }
    rewrite Hc, Hsyn. cbn [append].
    unfold Printf.render_all.
    cbn [Printf.assemble Printf.render_segment].
    rewrite (parse_unknown_verb c Hverb Hsyn). reflexivity.
  - exists EmptyString, EmptyString. reflexivity.
  - exists EmptyString, EmptyString. reflexivity.
Qed.

Lemma format_renders_error_tokens_witness :
  contains "%!(BAD VERB 'h')" (Printf.sprintf Printf.sample_runtime "a%hb" [VStr ""])
  /\ contains "%!(MISSING 'd')" (Printf.sprintf Printf.sample_runtime "%d and %[3]d" [VNum 1])
  /\ Printf.sprintf Printf.sample_runtime "%!" [] = "%!(BAD VERB '!')".
Proof.
  destruct (format_renders_error_tokens unit Printf.sample_runtime "a%hb" [VStr ""] tt)
    as [_ [_ [Hbad _]]].
  destruct (format_renders_error_tokens unit Printf.sample_runtime "%d and %[3]d" [VNum 1] tt)
    as [_ [_ [_ [Hmissing _]]]].
  destruct (format_renders_error_tokens unit Printf.sample_runtime "" [] tt)
    as [_ [_ [_ [_ [Hsingle _]]]]].
  split; [| split].
  - apply (Hbad (Printf.mkFormatted (Printf.Span "h") (Printf.mkCursor 0) "%!(BAD VERB 'h')")
                "h" "h"%char).
    + right. left. reflexivity.
    + reflexivity.
    + reflexivity.
  - apply (Hmissing (Printf.mkFormatted (Printf.Span "[3]d") (Printf.mkCursor 1)
                       "%!(MISSING 'd')")
                    "[3]d" (Printf.mkDirective "d" Printf.no_flags Printf.Absent Printf.Absent
                              (Some 3))
                    None None (Printf.mkCursor 1) (Printf.mkCursor 1) 2).
    + right. right. left. reflexivity.
    + reflexivity.
    + reflexivity.
    + discriminate.
    + reflexivity.
    + reflexivity.
    + reflexivity.
    + simpl. lia.
  - apply (Hsingle "!"%char); reflexivity.
Defined.

(** C3: on a literal-only template, one whose every [%] is half of a [%%]
    pair, [format] returns the template with each [%%] collapsed to [%] and
    all other characters unchanged and in order, whatever the arguments. *)
Theorem format_literal_only :
  forall (World : Type) (rt : Printf.Runtime) (formatter : string) (args : list value)
         (w : World),
    Printf.literal_only formatter = true ->
    Ops.format (engine rt) formatter args w = (Returns (Printf.collapse formatter), w).
Proof.
  intros World rt formatter args w Hlit.
  unfold Ops.format, engine, ret, Printf.sprintf, Printf.scan.
  now rewrite (proj1 (render_all_literal_only rt args (Printf.mkCursor 0) formatter) Hlit).
Qed.

Lemma format_literal_only_witness :
  Printf.literal_only "100%% sure, 50%%%% off" = true
  /\ Ops.format (engine Printf.sample_runtime) "100%% sure, 50%%%% off" [VNum 1; VStr "x"] tt
     = (Returns "100% sure, 50%% off", tt).
Proof.
  split; [reflexivity |].
  apply (format_literal_only unit Printf.sample_runtime "100%% sure, 50%%%% off"
           [VNum 1; VStr "x"] tt).
  reflexivity.
Defined.

Lemma read_operand_explicit_index (args : list value) (d : Printf.Directive)
  (cur : Printf.Cursor) (i : nat) (v : value) :
  Printf.explicitIndex d = Some (S i) ->
  nth_error args i = Some v ->
  Printf.read_operand args d cur = (Printf.Resolved v, Printf.mkCursor (S i)).
Proof.
  intros Hidx Hnth.
  unfold Printf.read_operand, Printf.argAtPosition, Printf.argAt.
  now rewrite Hidx, Hnth.
Qed.


(** C5: a directive whose width and precision are [*] reads them from the
    next two arguments, and from there on is rendered exactly as the same
    directive with those two numbers written in the template; in particular
    [format("%*.*f", 9, 8, 456.0)] equals [format("%9.8f", 456.0)]. *)
Theorem star_forms_equal_literal_forms :
  forall (World : Type) (rt : Printf.Runtime) (w : World),
    (forall args d k cur wv pv wd pr,
        Printf.width d = Printf.FromArg ->
        Printf.precision d = Printf.FromArg ->
        nth_error args (Printf.nextImplicitIndex cur) = Some wv ->
        nth_error args (S (Printf.nextImplicitIndex cur)) = Some pv ->
        Printf.as_size wv = Printf.Resolved (Some wd) ->
        Printf.as_size pv = Printf.Resolved (Some pr) ->
        Printf.render_directive rt args d k cur
        = Printf.render_directive rt args
            (Printf.mkDirective (Printf.verb d) (Printf.flags d) (Printf.Literally wd)
               (Printf.Literally pr) (Printf.explicitIndex d))
            k (Printf.mkCursor (S (S (Printf.nextImplicitIndex cur)))))
    /\ Printf.parse "*.*f"
       = Printf.Parsed (Printf.mkDirective "f" Printf.no_flags Printf.FromArg Printf.FromArg None)
    /\ Printf.parse "9.8f"
       = Printf.Parsed (Printf.mkDirective "f" Printf.no_flags (Printf.Literally 9)
                          (Printf.Literally 8) None)
    /\ Ops.format (engine rt) "%*.*f" [VNum 9; VNum 8; VNum 456] w
       = Ops.format (engine rt) "%9.8f" [VNum 456] w.
Proof.
  intros World rt w. split; [| repeat split].
  intros args d k cur wv pv wd pr Hw Hp Hwv Hpv Hwd Hpr.
  unfold Printf.render_directive, Printf.read_spec, Printf.nextArg.
  rewrite Hw, Hp. cbn [Printf.width Printf.precision Printf.nextImplicitIndex].
  rewrite Hwv. cbn [Printf.and_then Printf.nextImplicitIndex]. rewrite Hwd, Hpv.
  cbn [Printf.and_then]. rewrite Hpr.
  unfold Printf.read_operand, Printf.render_value. reflexivity.
Qed.

Lemma star_forms_equal_literal_forms_witness :
  Printf.render_directive Printf.sample_runtime [VNum 9; VNum 8; VNum 456]
    (Printf.mkDirective "f" Printf.no_flags Printf.FromArg Printf.FromArg None)
    Printf.VerbFloat (Printf.mkCursor 0)
  = Printf.render_directive Printf.sample_runtime [VNum 9; VNum 8; VNum 456]
      (Printf.mkDirective "f" Printf.no_flags (Printf.Literally 9) (Printf.Literally 8) None)
      Printf.VerbFloat (Printf.mkCursor 2)
  /\ Ops.format (engine Printf.sample_runtime) "%*.*f" [VNum 9; VNum 8; VNum 456] tt
     = (Returns "456.00000000", tt)
  /\ Ops.format (engine Printf.sample_runtime) "%9.8f" [VNum 456] tt
     = (Returns "456.00000000", tt).
Proof.
  destruct (star_forms_equal_literal_forms unit Printf.sample_runtime tt)
    as [Hgeneral [_ [_ Hexample]]].
  split; [| split].
  - apply (Hgeneral [VNum 9; VNum 8; VNum 456]
             (Printf.mkDirective "f" Printf.no_flags Printf.FromArg Printf.FromArg None)
             Printf.VerbFloat (Printf.mkCursor 0) (VNum 9) (VNum 8) 9 8);
      reflexivity.
  - rewrite Hexample. reflexivity.
  - reflexivity.
Defined.




(** ** Further checks of the model against section 8 *)

Lemma collapse_without_percent (tpl : string) :
  (forall c, In c (list_ascii_of_string tpl) -> c <> "%"%char) ->
  Printf.literal_only tpl = true /\ Printf.collapse tpl = tpl.
Proof.
  induction tpl as [| c rest IH]; intros Hfree; [split; reflexivity |].
  assert (Hc : (c =? "%")%char = false).
  { apply Ascii.eqb_neq. apply Hfree. left. reflexivity. }
  destruct IH as [IHlit IHcol].
  { intros c' Hin. apply Hfree. right. exact Hin. }
  cbn [Printf.literal_only Printf.collapse]. rewrite Hc.
  split; [exact IHlit | now rewrite IHcol].
Qed.

(** Under the [0] flag and without the [-] flag the padding goes between
    the sign and the digits. *)
Lemma pad_zero_after_sign (fl : Printf.Flags) (n : nat) (sign body : string) :
  Printf.zero fl = true -> Printf.minus fl = false ->
  Printf.pad fl (Some n) sign body
  = sign ++ repeat_char "0" (n - (String.length sign + String.length body)) ++ body.
Proof.
  intros Hzero Hminus. unfold Printf.pad. now rewrite Hminus, Hzero.
Qed.

Example format_strings_and_widths (rt : Printf.Runtime) :
  Printf.sprintf rt "%s" [VStr "x"] = "x"
  /\ Printf.sprintf rt "%5s" [VStr "x"] = "    x"
  /\ Printf.sprintf rt "%-5s" [VStr "x"] = "x    "
  /\ Printf.sprintf rt "%.2s|%t|%T" [VStr "abc"; VNum 0; VNull] = "ab|false|object".
Proof. repeat split. Qed.

Example format_integers (rt : Printf.Runtime) :
  Printf.sprintf rt "%05d|%-05d|%+d|% d|%x|%X|%#x|%#o|%#b|%b"
    [VNum (-42); VNum 7; VNum 3; VNum 3; VNum 255; VNum 255; VNum 255; VNum 8; VNum 5; VNum 5]
  = "-0042|7    |+3| 3|ff|FF|0xff|010|0b101|101".
Proof. reflexivity. Qed.

Example format_hex_of_strings (rt : Printf.Runtime) :
  Printf.sprintf rt "%x|% X|%.1x" [VStr "AZ"; VStr "AZ"; VStr "AZ"] = "415a|41 5A|41".
Proof. reflexivity. Qed.

Example format_recoverable_failures :
  Printf.sprintf Printf.sample_runtime "%d|%?|%5|%[x]d|%*d|100%"
    [VStr "no"; VNum 1; VNum 2]
  = "%!(BAD TYPE)|%!(NO DISPLAY)|%!(BAD VERB '|')%!(BAD FORMAT)]d|%!(MISSING 'd')|100%!(BAD FORMAT)".
Proof. reflexivity. Qed.

(** ** Further properties of Option.ts, Result.ts and ops.ts *)

(** X1: what is put into [Some] comes back out.  On [Some(v)], also on
    [Some(undefined)], [isSome()] is true and [unwrap()], [expect(msg)],
    [unwrapOr(d)] and [unwrapOrElse(cb)] all return [v]: nothing is thrown,
    [sprintf] and [cb] are not called and the world stays as it was. *)
Theorem some_round_trip :
  forall (World : Type) (sprintf : Sprintf World) (rev : Panic.revision)
         (v d : value) (message : string) (cb : Js World value) (w : World) (n : nat),
    Option.isSome (Option.Some v) = true
    /\ Option.isNone (Option.Some v) = false
    /\ Option.unwrap sprintf rev (Option.Some v) w = (Returns v, w)
    /\ Option.expect sprintf rev (Option.Some v) message w = (Returns v, w)
    /\ Option.unwrapOr (Option.Some v) d = v
    /\ Option.unwrapOrElse (Option.Some v) cb w = (Returns v, w)
    /\ Option.unwrapOrElse (Option.Some v) (counted_call cb) (w, n) = (Returns v, (w, n)).
Proof.
  intros World sprintf rev v d message cb w n.
  repeat split.
Qed.

(** X2: the accessors of [Result] give back what the constructors took.
    [Ok(v).unwrap()] and [Ok(v).expect(m)] return [v], [Err(e).unwrapErr()]
    and [Err(e).expectErr(m)] return [e], without throwing and without a
    call of [sprintf]; [Ok(v).unwrapOr(d)] is [v] and
    [Ok(v).unwrapOrElse(cb)] returns [v] without calling [cb]. *)
Theorem result_round_trip :
  forall (World : Type) (sprintf : Sprintf World) (rev : Panic.revision)
         (v e d m : value) (cb : value -> Js World value) (w : World) (n : nat),
    Result.isOk (Result.Ok v) = true
    /\ Result.isErr (Result.Err e) = true
    /\ Result.isErr (Result.Ok v) = false
    /\ Result.isOk (Result.Err e) = false
    /\ Result.unwrap sprintf rev (Result.Ok v) w = (Returns v, w)
    /\ Result.expect sprintf rev (Result.Ok v) m w = (Returns v, w)
    /\ Result.unwrapErr sprintf rev (Result.Err e) w = (Returns e, w)
    /\ Result.expectErr sprintf rev (Result.Err e) m w = (Returns e, w)
    /\ Result.unwrapOr (Result.Ok v) d = v
    /\ Result.unwrapOrElse (Result.Ok v) (counted cb) (w, n) = (Returns v, (w, n)).
Proof.
  intros World sprintf rev v e d m cb w n.
  repeat split.
Qed.

Lemma result_expectErr_unfold {World : Type} (sprintf : Sprintf World)
  (rev : Panic.revision) (this : Result.Result) (message : value) (w : World) :
  res_isError this = false ->
  Result.expectErr sprintf rev this message w
  = match Panic.panic_of sprintf rev (A := value) message [] w with
    | (Returns _, w') => (Returns (res_error this), w')
    | (Throws e, w') => (Throws e, w')
    end.
Proof.
  intros Hok. unfold Result.expectErr, bind. rewrite Hok. simpl.
  destruct (Panic.panic_of sprintf rev message [] w) as [[v | e] w']; reflexivity.
Qed.

(** X3: asking a success for its error aborts.  On a [Result] that is not
    an error, [unwrapErr()] and [expectErr(msg)] throw and do not return;
    [unwrapErr()] throws the success value itself when that value is not a
    string, and [expectErr(msg)] throws the message [sprintf] makes of
    [msg] (wrapped in an [Error] in the documented revision of [panic]). *)
Theorem unwrapErr_on_success_aborts :
  forall (World : Type) (sprintf : Sprintf World) (rev : Panic.revision)
         (this : Result.Result) (w : World),
    res_isError this = false ->
    (exists e w', Result.unwrapErr sprintf rev this w = (Throws e, w'))
    /\ (forall message, exists e w',
          Result.expectErr sprintf rev this message w = (Throws e, w'))
    /\ (typeof (res_value this) <> "string" ->
        Result.unwrapErr sprintf rev this w = (Throws (res_value this), w))
    /\ (forall message text w',
          sprintf message [] w = (Returns text, w') ->
          Result.expectErr sprintf rev this (VStr message) w
          = (Throws match rev with
                    | Panic.Plain => VStr text
                    | Panic.Documented => VError text
                    end, w')).
Proof.
  intros World sprintf rev this w Hok. split; [| split; [| split]].
  - unfold Result.unwrapErr. rewrite (result_expectErr_unfold sprintf rev this _ w Hok).
    destruct (panic_of_throws sprintf rev value (res_value this) [] w) as [e [w' ->]]. eauto.
  - intros message. rewrite (result_expectErr_unfold sprintf rev this _ w Hok).
    destruct (panic_of_throws sprintf rev value message [] w) as [e [w' ->]]. eauto.
  - intros Hty. unfold Result.unwrapErr.
    rewrite (result_expectErr_unfold sprintf rev this _ w Hok).
    now rewrite (panic_of_value sprintf rev value (res_value this) [] w Hty).
  - intros message text w' Hfmt.
    rewrite (result_expectErr_unfold sprintf rev this _ w Hok).
    now rewrite (panic_of_message sprintf rev value message text [] w w' Hfmt).
Qed.

Lemma unwrapErr_on_success_aborts_witness :
  Result.unwrapErr (engine Printf.sample_runtime) Panic.Plain (Result.Ok (VNum 5)) tt
    = (Throws (VNum 5), tt)
  /\ Result.expectErr (engine Printf.sample_runtime) Panic.Documented (Result.Ok (VNum 5))
       (VStr "no error in %s") tt
     = (Throws (VError "no error in %!(MISSING 's')"), tt).
Proof.
  destruct (unwrapErr_on_success_aborts unit (engine Printf.sample_runtime) Panic.Plain
              (Result.Ok (VNum 5)) tt eq_refl) as [_ [_ [Hvalue _]]].
  destruct (unwrapErr_on_success_aborts unit (engine Printf.sample_runtime) Panic.Documented
              (Result.Ok (VNum 5)) tt eq_refl) as [_ [_ [_ Hmessage]]].
  split.
  - apply Hvalue. discriminate.
  - apply (Hmessage "no error in %s" "no error in %!(MISSING 's')" tt). reflexivity.
Defined.

(** X4: [and] and [or] of [Result] behave as conjunction and disjunction of
    success.  [a.or(b)] is [b] exactly when [a] is an error (the two-clause
    test of the source amounts to that) and [a.and(b)] is [a] exactly when
    [a] is an error; so [isOk] of [and] is the conjunction and [isOk] of
    [or] the disjunction, both operations are idempotent and associative,
    and each absorbs the other. *)
Theorem result_and_or_laws :
  forall a b c : Result.Result,
    Result.or a b = (if Result.isErr a then b else a)
    /\ Result.and a b = (if Result.isErr a then a else b)
    /\ Result.isOk (Result.and a b) = Result.isOk a && Result.isOk b
    /\ Result.isOk (Result.or a b) = Result.isOk a || Result.isOk b
    /\ Result.and a a = a
    /\ Result.or a a = a
    /\ Result.and (Result.and a b) c = Result.and a (Result.and b c)
    /\ Result.or (Result.or a b) c = Result.or a (Result.or b c)
    /\ Result.and a (Result.or a b) = a
    /\ Result.or a (Result.and a b) = a.
Proof.
  intros [va ea [|]] [vb eb [|]] [vc ec [|]]; repeat split.
Qed.

(** X5: [orElse] of [Result] chains recoveries.  On [Err(e)] it is the call
    [cb(e)]; on [Ok(v)] it returns the receiver and [cb] is not called;
    recovering with [Err] itself changes nothing; and recovering twice in a
    row is the same as recovering once with the chained callback. *)
Theorem result_orElse_laws :
  forall (World : Type) (this : Result.Result) (v e : value)
         (f g : value -> Js World Result.Result) (w : World) (n : nat),
    Result.orElse (Result.Err e) f w = f e w
    /\ Result.orElse (Result.Ok v) (counted f) (w, n) = (Returns (Result.Ok v), (w, n))
    /\ Result.orElse (Result.Ok v) (fun x => ret (Result.Err x)) w
       = (Returns (Result.Ok v), w)
    /\ Result.orElse (Result.Err e) (fun x => ret (Result.Err x)) w
       = (Returns (Result.Err e), w)
    /\ (r <- Result.orElse this f ;; Result.orElse r g) w
       = Result.orElse this (fun x => r <- f x ;; Result.orElse r g) w.
Proof.
  intros World this v e f g w n.
  repeat split.
  unfold Result.orElse, bind, ret.
  destruct (res_isError this) eqn:Herr; [reflexivity |].
  now rewrite Herr.
Qed.

(** X6: [andThen] of [Option] chains computations that may have no result.
    On [Some(v)] it is the call [f(v)]; on [None] it returns [None] and [f]
    is not called; chaining with [Some] changes nothing; and chaining twice
    in a row is the same as chaining once with the chained callback. *)
Theorem option_andThen_laws :
  forall (World : Type) (this : Option.Option) (v : value)
         (f g : value -> Js World Option.Option) (w : World) (n : nat),
    Option.andThen (Option.Some v) f w = f v w
    /\ Option.andThen Option.None (counted f) (w, n) = (Returns Option.None, (w, n))
    /\ Option.andThen (Option.Some v) (fun x => ret (Option.Some x)) w
       = (Returns (Option.Some v), w)
    /\ Option.andThen Option.None (fun x => ret (Option.Some x)) w
       = (Returns Option.None, w)
    /\ (r <- Option.andThen this f ;; Option.andThen r g) w
       = Option.andThen this (fun x => r <- f x ;; Option.andThen r g) w.
Proof.
  intros World this v f g w n.
  repeat split.
  unfold Option.andThen, bind, ret.
  destruct (opt_has this); reflexivity.
Qed.

(** X7: [and], [or] and [xor] of [Option] combine presence as the boolean
    operations of the same names.  [or] keeps the receiver's value when
    there is one and else takes the other's; [and] yields the other's value
    when both are present; [xor] yields the value of the only one present,
    whichever side it is on, and nothing when both or neither are. *)
Theorem option_and_or_xor_laws :
  forall (a b : Option.Option) (d : value),
    Option.isSome (Option.and a b) = Option.isSome a && Option.isSome b
    /\ Option.isSome (Option.or a b) = Option.isSome a || Option.isSome b
    /\ Option.isSome (Option.xor a b) = xorb (Option.isSome a) (Option.isSome b)
    /\ Option.unwrapOr (Option.or a b) d = Option.unwrapOr a (Option.unwrapOr b d)
    /\ Option.unwrapOr (Option.and a b) d
       = (if Option.isSome a then Option.unwrapOr b d else d)
    /\ Option.unwrapOr (Option.xor a b) d
       = (if Option.isSome a
          then if Option.isSome b then d else Option.unwrapOr a d
          else Option.unwrapOr b d)
    /\ Option.unwrapOr (Option.xor a b) d = Option.unwrapOr (Option.xor b a) d
    /\ Option.isSome (Option.xor a a) = false.
Proof.
  intros [[|] va] [[|] vb] d; repeat split.
Qed.

(** X8: [filter] never makes up a value.  Without a value it returns [None]
    and the predicate is not called; with a value the predicate is called
    once and the result is the receiver when it answers true and [None]
    when it answers false; so whenever the result has a value it is the
    receiver. *)
Theorem filter_keeps_or_drops :
  forall (World : Type) (this : Option.Option) (predicate : value -> Js World bool)
         (w : World) (n : nat),
    (opt_has this = false ->
       Option.filter this (counted predicate) (w, n) = (Returns Option.None, (w, n)))
    /\ (opt_has this = true ->
       snd (snd (Option.filter this (counted predicate) (w, n))) = S n
       /\ forall keep w',
           predicate (opt_value this) w = (Returns keep, w') ->
           Option.filter this predicate w
           = (Returns (if keep then this else Option.None), w'))
    /\ (forall r w',
          Option.filter this predicate w = (Returns r, w') ->
          Option.isSome r = true ->
          r = this).
Proof.
  intros World this predicate w n. split; [| split].
  - intros Hnone. unfold Option.filter. now rewrite Hnone.
  - intros Hsome. split.
    + unfold Option.filter, bind, counted. rewrite Hsome. simpl.
      destruct (predicate (opt_value this) w) as [[[|] | e] w']; reflexivity.
    + intros keep w' Hp. unfold Option.filter, bind. rewrite Hsome, Hp.
      destruct keep; reflexivity.
  - intros r w'. unfold Option.filter, bind, ret.
    destruct (opt_has this).
    + destruct (predicate (opt_value this) w) as [[[|] | e] w'']; intros H Hr;
        inversion H; subst; try reflexivity; discriminate Hr.
    + intros H Hr. inversion H; subst. discriminate Hr.
Qed.

Lemma filter_keeps_or_drops_witness :
  Option.filter (Option.Some (VNum 4)) (fun v => ret (truthy v)) tt
    = (Returns (Option.Some (VNum 4)), tt)
  /\ Option.filter (Option.Some (VNum 0)) (fun v => ret (truthy v)) tt
    = (Returns Option.None, tt)
  /\ Option.filter Option.None (counted (fun v => ret (World := unit) (truthy v))) (tt, 0)
    = (Returns Option.None, (tt, 0)).
Proof.
  destruct (filter_keeps_or_drops unit (Option.Some (VNum 4)) (fun v => ret (truthy v)) tt 0)
    as [_ [Hkeep _]].
  destruct (filter_keeps_or_drops unit (Option.Some (VNum 0)) (fun v => ret (truthy v)) tt 0)
    as [_ [Hdrop _]].
  destruct (filter_keeps_or_drops unit Option.None (fun v => ret (truthy v)) tt 0)
    as [Hnone _].
  split; [| split].
  - apply (proj2 (Hkeep eq_refl) true tt). reflexivity.
  - apply (proj2 (Hdrop eq_refl) false tt). reflexivity.
  - apply Hnone. reflexivity.
Defined.

(** X9: [map] is [Some] of the callback's result followed by [flatten].
    [flatten] unwraps one level when the value is itself an [Option] and
    otherwise returns the receiver; hence mapping the identity callback
    over an [Option] with a value flattens it, and mapping a callback that
    returns something other than an [Option] wraps its result in [Some]. *)
Theorem map_is_some_then_flatten :
  forall (World : Type) (this : Option.Option) (cb : value -> Js World value) (w : World),
    opt_has this = true ->
    (forall newValue w',
        cb (opt_value this) w = (Returns newValue, w') ->
        Option.map this cb w = (Returns (Option.flatten (Option.Some newValue)), w'))
    /\ Option.map this (fun v => ret v) w = (Returns (Option.flatten this), w)
    /\ (forall inner, opt_value this = VOption inner -> Option.flatten this = inner)
    /\ ((forall inner, opt_value this <> VOption inner) -> Option.flatten this = this).
Proof.
  intros World this cb w Hsome. split; [| split; [| split]].
  - intros newValue w' Hcb. unfold Option.map, bind. rewrite Hsome, Hcb.
    destruct newValue; reflexivity.
  - unfold Option.map, Option.flatten, bind, ret. rewrite Hsome.
    destruct this as [has v]. simpl in *. subst has.
    destruct v; reflexivity.
  - intros inner Hv. unfold Option.flatten. now rewrite Hsome, Hv.
  - intros Hnot. unfold Option.flatten. rewrite Hsome.
    destruct (opt_value this); try reflexivity.
    exfalso. apply (Hnot o). reflexivity.
Qed.

Lemma map_is_some_then_flatten_witness :
  Option.map (Option.Some (VOption (Option.Some (VNum 1)))) (fun v => ret v) tt
    = (Returns (Option.Some (VNum 1)), tt)
  /\ Option.flatten (Option.Some (VOption (Option.Some (VNum 1)))) = Option.Some (VNum 1)
  /\ Option.flatten (Option.Some (VNum 1)) = Option.Some (VNum 1).
Proof.
  destruct (map_is_some_then_flatten unit (Option.Some (VOption (Option.Some (VNum 1))))
              (fun v => ret v) tt eq_refl) as [_ [Hid [Hinner _]]].
  destruct (map_is_some_then_flatten unit (Option.Some (VNum 1)) (fun v => ret v) tt eq_refl)
    as [_ [_ [_ Hplain]]].
  split; [| split].
  - rewrite Hid. reflexivity.
  - apply Hinner. reflexivity.
  - apply Hplain. discriminate.
Defined.

(** X10: [okOr] turns presence into success without losing the value.  The
    result is a success exactly when the [Option] has a value; taking the
    value with a fallback gives the same answer before and after the
    conversion; and without a value the error of the result is the one
    supplied.  [okOrElse] gives the same result from the callback's value
    and does not call the callback when there is a value. *)
Theorem okOr_preserves_content :
  forall (World : Type) (this : Option.Option) (err d : value) (cb : Js World value)
         (w : World) (n : nat),
    Result.isOk (Option.okOr this err) = Option.isSome this
    /\ Result.unwrapOr (Option.okOr this err) d = Option.unwrapOr this d
    /\ (opt_has this = false -> Option.okOr this err = Result.Err err)
    /\ (opt_has this = true ->
        Option.okOrElse this (counted_call cb) (w, n)
        = (Returns (Option.okOr this err), (w, n)))
    /\ (forall w',
          opt_has this = false ->
          cb w = (Returns err, w') ->
          Option.okOrElse this cb w = (Returns (Option.okOr this err), w')).
Proof.
  intros World this err d cb w n.
  unfold Option.okOr, Option.okOrElse, Option.isSome, Option.unwrapOr, bind, ret.
  destruct (opt_has this); repeat split; try discriminate.
  intros w' _ Hcb. now rewrite Hcb.
Qed.

Lemma okOr_preserves_content_witness :
  Option.okOr Option.None (VStr "nothing") = Result.Err (VStr "nothing")
  /\ Option.okOrElse (Option.Some (VNum 1)) (counted_call (throw (World := unit) VNull)) (tt, 0)
     = (Returns (Result.Ok (VNum 1)), (tt, 0))
  /\ Option.okOrElse Option.None (ret (VStr "nothing")) tt
     = (Returns (Result.Err (VStr "nothing")), tt).
Proof.
  destruct (okOr_preserves_content unit Option.None (VStr "nothing") VNull
              (ret (VStr "nothing")) tt 0) as [_ [_ [Herr [_ Hlazy]]]].
  destruct (okOr_preserves_content unit (Option.Some (VNum 1)) VNull VNull
              (throw VNull) tt 0) as [_ [_ [_ [Hskip _]]]].
  split; [| split].
  - apply Herr. reflexivity.
  - apply Hskip. reflexivity.
  - rewrite (Hlazy tt eq_refl eq_refl). reflexivity.
Defined.

(** X11: [mapOrElse] runs exactly one of its two callbacks: the mapping
    callback on the value when there is one, the default callback when
    there is none.  [mapOr] and [isSomeAnd] do not call their callback
    without a value and answer the default, respectively false. *)
Theorem mapOrElse_runs_one_callback :
  forall (World : Type) (this : Option.Option) (d : Js World value)
         (cb : value -> Js World value) (p : value -> Js World bool) (val : value)
         (w : World) (n : nat),
    snd (snd (Option.mapOrElse this (counted_call d) (counted cb) (w, n))) = S n
    /\ Option.mapOrElse this d cb w
       = (if Option.isSome this then cb (opt_value this) w else d w)
    /\ (opt_has this = false ->
        Option.mapOr this val (counted cb) (w, n) = (Returns val, (w, n))
        /\ Option.isSomeAnd this (counted p) (w, n) = (Returns false, (w, n))).
Proof.
  intros World this d cb p val w n.
  unfold Option.mapOrElse, Option.mapOr, Option.isSomeAnd, Option.isSome,
    counted_call, counted.
  destruct (opt_has this); simpl.
  - split; [| split; [reflexivity | discriminate]].
    destruct (cb (opt_value this) w) as [r w']. reflexivity.
  - split; [| split; [reflexivity | split; reflexivity]].
    destruct (d w) as [r w']. reflexivity.
Qed.

Lemma mapOrElse_runs_one_callback_witness :
  Option.mapOr Option.None (VNum 0) (counted (fun v => throw (World := unit) v)) (tt, 0)
    = (Returns (VNum 0), (tt, 0))
  /\ Option.isSomeAnd Option.None (counted (fun v => ret (World := unit) true)) (tt, 0)
    = (Returns false, (tt, 0)).
Proof.
  destruct (mapOrElse_runs_one_callback unit Option.None (ret VNull)
              (fun v => throw v) (fun v => ret true) (VNum 0) tt 0) as [_ [_ Hnone]].
  exact (Hnone eq_refl).
Defined.

(** X12: after [insert(v)] the receiver holds [v], whatever it held before.
    [insert] returns [v]; the receiver is then [Some(v)]: [unwrap()]
    returns [v], [getOrInsert(u)] returns [v] and changes nothing, and
    [take()] hands [Some(v)] out and leaves the receiver empty. *)
Theorem insert_then_read :
  forall (World : Type) (sprintf : Sprintf World) (rev : Panic.revision)
         (this : Option.Option) (v u : value) (w : World),
    fst (Option.insert this v) = v
    /\ snd (Option.insert this v) = Option.Some v
    /\ Option.unwrap sprintf rev (snd (Option.insert this v)) w = (Returns v, w)
    /\ Option.getOrInsert (snd (Option.insert this v)) u = (v, Option.Some v)
    /\ Option.take (snd (Option.insert this v)) = (Option.Some v, Option.None).
Proof.
  intros World sprintf rev this v u w.
  repeat split.
Qed.

(** X13: after [getOrInsert(v)] the receiver always has a value, and the
    value returned is the one it now holds: the old one when there was one
    (the receiver is then unchanged and [v] is dropped), else [v].  A
    second [getOrInsert] with any other value returns the same value again
    and changes nothing. *)
Theorem getOrInsert_settles :
  forall (this : Option.Option) (v u d : value),
    Option.isSome (snd (Option.getOrInsert this v)) = true
    /\ fst (Option.getOrInsert this v) = Option.unwrapOr this v
    /\ Option.unwrapOr (snd (Option.getOrInsert this v)) d = fst (Option.getOrInsert this v)
    /\ (opt_has this = true -> snd (Option.getOrInsert this v) = this)
    /\ Option.getOrInsert (snd (Option.getOrInsert this v)) u = Option.getOrInsert this v.
Proof.
  intros [[|] val] v u d; repeat split; intros H; try discriminate H; reflexivity.
Qed.

Lemma getOrInsert_settles_witness :
  snd (Option.getOrInsert (Option.Some (VNum 1)) (VNum 2)) = Option.Some (VNum 1).
Proof.
  destruct (getOrInsert_settles (Option.Some (VNum 1)) (VNum 2) VNull VNull)
    as [_ [_ [_ [Hsame _]]]].
  apply Hsame. reflexivity.
Defined.

(** X14: [getOrInsertWith(f)] returns the held value without calling [f]
    when there is one.  When there is none it returns what [f()] returns
    and stores it in [#value], but [#has] is not set: the receiver still
    reports no value, [unwrapOr(d)] still answers [d], and a further
    [getOrInsertWith(g)] calls [g] and returns its result rather than the
    stored one.  (In [getOrInsert] the receiver does report the value.) *)
Theorem getOrInsertWith_does_not_mark_present :
  forall (World : Type) (this : Option.Option) (f g : Js World value) (w : World) (n : nat),
    (opt_has this = true ->
       Option.getOrInsertWith this (counted_call f) (w, n)
       = (Returns (opt_value this, this), (w, n)))
    /\ (opt_has this = false ->
       forall v w',
         f w = (Returns v, w') ->
         Option.getOrInsertWith this f w = (Returns (v, mkOption false v), w')
         /\ Option.isNone (mkOption false v) = true
         /\ (forall d, Option.unwrapOr (mkOption false v) d = d)
         /\ (forall u w'',
               g w' = (Returns u, w'') ->
               Option.getOrInsertWith (mkOption false v) g w'
               = (Returns (u, mkOption false u), w'')))
    /\ (forall v, Option.isSome (snd (Option.getOrInsert this v)) = true).
Proof.
  intros World this f g w n. split; [| split].
  - intros Hsome. unfold Option.getOrInsertWith. now rewrite Hsome.
  - intros Hnone v w' Hf.
    unfold Option.getOrInsertWith, bind, ret. rewrite Hnone, Hf.
    repeat split.
    intros u w'' Hg. simpl. now rewrite Hg.
  - intros v. unfold Option.getOrInsert. destruct (opt_has this) eqn:Hhas; [| reflexivity].
    exact Hhas.
Qed.

Lemma getOrInsertWith_does_not_mark_present_witness :
  Option.getOrInsertWith Option.None (ret (VNum 1)) tt
    = (Returns (VNum 1, mkOption false (VNum 1)), tt)
  /\ Option.getOrInsertWith (mkOption false (VNum 1)) (ret (VNum 2)) tt
    = (Returns (VNum 2, mkOption false (VNum 2)), tt)
  /\ Option.getOrInsertWith (Option.Some (VNum 1)) (counted_call (throw (World := unit) VNull))
       (tt, 0)
     = (Returns (VNum 1, Option.Some (VNum 1)), (tt, 0)).
Proof.
  destruct (getOrInsertWith_does_not_mark_present unit Option.None (ret (VNum 1))
              (ret (VNum 2)) tt 0) as [_ [Hnone _]].
  destruct (getOrInsertWith_does_not_mark_present unit (Option.Some (VNum 1))
              (throw VNull) (ret (VNum 2)) tt 0) as [Hsome _].
  destruct (Hnone eq_refl (VNum 1) tt eq_refl) as [Hfirst [_ [_ Hsecond]]].
  split; [exact Hfirst | split].
  - apply (Hsecond (VNum 2) tt). reflexivity.
  - apply Hsome. reflexivity.
Defined.

(** X15: [take] moves the content out.  The returned [Option] has a value
    exactly when the receiver had one, and the same one; afterwards the
    receiver has none, so a second [take] returns an [Option] without a
    value and changes nothing.  With a value the result is [Some] of it and
    the receiver is left as [None]. *)
Theorem take_moves_content :
  forall (this : Option.Option) (d : value),
    Option.isSome (fst (Option.take this)) = Option.isSome this
    /\ Option.unwrapOr (fst (Option.take this)) d = Option.unwrapOr this d
    /\ Option.isNone (snd (Option.take this)) = true
    /\ Option.take (snd (Option.take this))
       = (snd (Option.take this), snd (Option.take this))
    /\ (opt_has this = true ->
        Option.take this = (Option.Some (opt_value this), Option.None))
    /\ (opt_has this = false -> Option.take this = (this, this)).
Proof.
  intros [[|] val] d; repeat split; intros H; try discriminate H; reflexivity.
Qed.

Lemma take_moves_content_witness :
  Option.take (Option.Some (VStr "x")) = (Option.Some (VStr "x"), Option.None)
  /\ Option.take Option.None = (Option.None, Option.None).
Proof.
  destruct (take_moves_content (Option.Some (VStr "x")) VNull) as [_ [_ [_ [_ [Hsome _]]]]].
  destruct (take_moves_content Option.None VNull) as [_ [_ [_ [_ [_ Hnone]]]]].
  split; [apply Hsome | apply Hnone]; reflexivity.
Defined.

(** X16: [replace(v)] swaps the content.  Afterwards the receiver is
    [Some(v)]; the returned [Option] has a value exactly when the receiver
    had one, and the same one, so without a value it is [None] whatever
    [#value] happened to hold.  Replacing again returns [Some(v)], and so
    does a [take] after it. *)
Theorem replace_swaps_content :
  forall (this : Option.Option) (v u d : value),
    snd (Option.replace this v) = Option.Some v
    /\ Option.isSome (fst (Option.replace this v)) = Option.isSome this
    /\ Option.unwrapOr (fst (Option.replace this v)) d = Option.unwrapOr this d
    /\ (opt_has this = false -> fst (Option.replace this v) = Option.None)
    /\ fst (Option.replace (snd (Option.replace this v)) u) = Option.Some v
    /\ Option.take (snd (Option.replace this v)) = (Option.Some v, Option.None).
Proof.
  intros [[|] val] v u d; repeat split; intros H; try discriminate H; reflexivity.
Qed.

Lemma replace_swaps_content_witness :
  fst (Option.replace (mkOption false (VNum 9)) (VNum 1)) = Option.None.
Proof.
  destruct (replace_swaps_content (mkOption false (VNum 9)) (VNum 1) VNull VNull)
    as [_ [_ [_ [Hnone _]]]].
  apply Hnone. reflexivity.
Defined.

(** X17: when formatting itself throws, [write] does not touch the sink: it
    returns [Err] of what was thrown, the world is as the failed formatting
    left it, and the outcome is the same for every sink. *)
Theorem write_reports_formatting_failure :
  forall (World : Type) (sprintf : Sprintf World) (stream : Ops.WriterSync World)
         (formatter : string) (args : list value) (w w1 : World) (e : value),
    sprintf formatter args w = (Throws e, w1) ->
    Ops.write sprintf stream formatter args w = (Returns (Result.Err e), w1)
    /\ (forall other : Ops.WriterSync World,
          Ops.write sprintf other formatter args w
          = Ops.write sprintf stream formatter args w).
Proof.
  intros World sprintf stream formatter args w w1 e Hfmt.
  split; [| intros other]; rewrite !write_unfold, Hfmt; reflexivity.
Qed.

Lemma write_reports_formatting_failure_witness :
  Ops.write failing_sprintf logging_sink "%s!" [VStr "hi"] []
    = (Returns (Result.Err (VError "sprintf failed")), []).
Proof.
  apply (write_reports_formatting_failure _ failing_sprintf logging_sink "%s!" [VStr "hi"]
           [] [] (VError "sprintf failed")).
  reflexivity.
Defined.

(** X18: the callback forms agree with the value forms.  When the callback
    merely returns a value, [orElse] is [or], [unwrapOrElse] is [unwrapOr],
    [mapOrElse] is [mapOr] and [okOrElse] is [okOr], and on [Result]
    [unwrapOrElse] is [unwrapOr]; and with a value present [orElse] returns
    the receiver without calling its callback. *)
Theorem callback_forms_agree_with_value_forms :
  forall (World : Type) (this other : Option.Option) (r : Result.Result) (d err : value)
         (cb : value -> Js World value) (f : Js World Option.Option) (w : World) (n : nat),
    Option.orElse this (ret other) w = (Returns (Option.or this other), w)
    /\ Option.unwrapOrElse this (ret d) w = (Returns (Option.unwrapOr this d), w)
    /\ Option.mapOrElse this (ret d) cb w = Option.mapOr this d cb w
    /\ Option.okOrElse this (ret err) w = (Returns (Option.okOr this err), w)
    /\ Result.unwrapOrElse r (fun _ => ret d) w = (Returns (Result.unwrapOr r d), w)
    /\ (opt_has this = true ->
        Option.orElse this (counted_call f) (w, n) = (Returns this, (w, n))).
Proof.
  intros World [[|] val] [[|] val'] [rv re [|]] d err cb f w n;
    repeat split; intros H; try discriminate H; reflexivity.
Qed.

Lemma callback_forms_agree_with_value_forms_witness :
  Option.orElse (Option.Some (VNum 1)) (counted_call (throw (World := unit) VNull)) (tt, 0)
  = (Returns (Option.Some (VNum 1)), (tt, 0)).
Proof.
  destruct (callback_forms_agree_with_value_forms unit (Option.Some (VNum 1)) Option.None
              (Result.Ok VNull) VNull VNull (fun v => ret v) (throw VNull) tt 0)
    as [_ [_ [_ [_ [_ Hskip]]]]].
  apply Hskip. reflexivity.
Defined.
